(** * PyMOL agent: turn orchestration, command extraction, session wrapper

    A shallow embedding of [agent.py] and [pymol_interface.py].

    - Python [str] values are sequences of Unicode code points.
    - The interpreter state the two modules touch ([sys.stdout], the module
      global [_pymol], the [io.StringIO] buffers) is threaded explicitly.
    - The PyMOL engine, the language-model client and a few Python builtins
      whose tables are not reproduced ([str.lower], [repr], [int], [str] of
      a float) are records of operations the definitions take as
      parameters.
    - Exceptions are those the code handles or lets through:
      whatever [cmd.do], [cmd.rms_cur] and [cmd.color] raise, [ValueError]
      from [int], and from the model call [anthropic.APIError], which the
      loop catches, or anything else, which it does not. *)

From Stdlib Require Import String Ascii DecimalString Floats.
From Stdlib Require Import List Bool Arith NArith ZArith Lia.
From Stdlib Require Import Permutation Sorted.
Import ListNotations.

(* ------------------------------------------------------------------ *)
(** ** Python strings *)
(* ------------------------------------------------------------------ *)

Module PyStr.

(** A code point. *)
Definition char := N.

Definition str := list char.

(** Source literals: the characters of an ASCII string literal. *)
Definition lit (s : string) : str := map N_of_ascii (list_ascii_of_string s).

Definition nonempty (s : str) : bool :=
  match s with [] => false | _ :: _ => true end.

Fixpoint str_eqb (a b : str) : bool :=
  match a, b with
  | [], [] => true
  | x :: a', y :: b' => (x =? y)%N && str_eqb a' b'
  | _, _ => false
  end.

(** [x in (a, b, ...)] on strings. *)
Definition str_in (x : str) (l : list str) : bool := existsb (str_eqb x) l.

(** [str.isspace] for one code point: the characters [str.strip()] removes. *)
Definition isspace (c : char) : bool :=
  ((9 <=? c) && (c <=? 13) || (28 <=? c) && (c <=? 32)
   || (c =? 133) || (c =? 160) || (c =? 5760)
   || (8192 <=? c) && (c <=? 8202)
   || (c =? 8232) || (c =? 8233) || (c =? 8239) || (c =? 8287)
   || (c =? 12288))%N.

Fixpoint lstrip (s : str) : str :=
  match s with
  | c :: s' => if isspace c then lstrip s' else s
  | [] => []
  end.

Definition rstrip (s : str) : str := rev (lstrip (rev s)).

(** [s.strip()] *)
Definition strip (s : str) : str := rstrip (lstrip s).

(** [sep.join(parts)] *)
Fixpoint join (sep : str) (parts : list str) : str :=
  match parts with
  | [] => []
  | [p] => p
  | p :: rest => p ++ sep ++ join sep rest
  end.

(** [str(n)] for an [int]. *)
Definition str_of_int (n : Z) : str := lit (NilZero.string_of_int (Z.to_int n)).

Definition newline : str := [10%N].

End PyStr.
Import PyStr.

(* ------------------------------------------------------------------ *)
(** ** agent.py: command parsing *)
(* ------------------------------------------------------------------ *)

Module Extract.

Definition OPEN : str := lit "<pymol>".
Definition CLOSE : str := lit "</pymol>".

(** Does the literal [p] match at the start of [s]? *)
Fixpoint starts_with (p s : str) : bool :=
  match p, s with
  | [], _ => true
  | a :: p', b :: s' => (a =? b)%N && starts_with p' s'
  | _ :: _, [] => false
  end.

(** The lazy group [(.*?)] followed by the literal [close], under
    [re.DOTALL]: the group grows one character at a time, any character
    allowed, until [close] matches.  Returns the group and the text after
    the match. *)
Fixpoint lazy_until (close s : str) {struct s} : option (str * str) :=
  if starts_with close s then Some ([], skipn (length close) s)
  else match s with
       | [] => None
       | c :: s' =>
           match lazy_until close s' with
           | Some (g, r) => Some (c :: g, r)
           | None => None
           end
       end.

(** [_CMD_RE.findall(text)]: scan left to right; at each position try the
    pattern; after a match resume at its end, otherwise move one character
    on.  Every step consumes at least one character, so [length s] steps
    are enough. *)
Fixpoint findall_fuel (fuel : nat) (s : str) : list str :=
  match fuel with
  | O => []
  | S fuel' =>
      match s with
      | [] => []
      | _ :: s' =>
          if starts_with OPEN s then
            match lazy_until CLOSE (skipn (length OPEN) s) with
            | Some (g, r) => g :: findall_fuel fuel' r
            | None => findall_fuel fuel' s'
            end
          else findall_fuel fuel' s'
      end
  end.

Definition findall (s : str) : list str := findall_fuel (length s) s.

(** [[m.strip() for m in _CMD_RE.findall(text) if m.strip()]] *)
Definition extract_commands (text : str) : list str :=
  map strip (filter (fun m => nonempty (strip m)) (findall text)).

End Extract.
Import Extract.

(* ------------------------------------------------------------------ *)
(** ** Exceptions and results *)
(* ------------------------------------------------------------------ *)

(** A raised exception, carrying the text [str(e)] gives. *)
Inductive Exn : Type := Exception (message : str).

Definition str_of_exn (e : Exn) : str :=
  match e with Exception m => m end.

(** The outcome of a call that may raise. *)
Inductive Result (A : Type) : Type :=
| Ok (a : A)
| Raise (e : Exn).
Arguments Ok {A} a.
Arguments Raise {A} e.

(* ------------------------------------------------------------------ *)
(** ** The PyMOL engine behind [pymol2.PyMOL().cmd] *)
(* ------------------------------------------------------------------ *)

(** One atom as [cmd.iterate] exposes it: [(model, chain, resi, resn)]. *)
Definition Atom : Type := (str * str * str * str)%type.

(** The calls the wrapper makes on a started instance.  [cmd_do] returns the
    new engine state, the text the command printed on [sys.stdout], and the
    exception when it raises.  [cmd_rms_cur] is the call with
    [matchmaker=4].  Constructing, starting and stopping an instance and
    the listing and counting queries are taken to return normally. *)
Record PyMOL2 : Type := {
  Engine : Type;
  started : Engine;
  cmd_do : str -> Engine -> Engine * str * option Exn;
  cmd_get_object_list : Engine -> list str;
  cmd_get_names : str -> Engine -> list str;
  cmd_count_atoms : str -> Engine -> Z;
  cmd_get_chains : str -> Engine -> list str;
  cmd_iterate : str -> Engine -> list Atom;
  cmd_rms_cur : str -> str -> Engine -> Result float;
  cmd_alter : str -> str -> Engine -> Engine;
  cmd_spectrum : str -> str -> str -> Z -> float -> Engine -> Engine
}.

(* ------------------------------------------------------------------ *)
(** ** Interpreter state *)
(* ------------------------------------------------------------------ *)

(** What [sys.stdout] can be bound to: the process's original output, or
    an [io.StringIO] object (named by its allocation index). *)
Inductive Stream : Type :=
| Terminal
| StringIO (id : nat).

(** A Python [dict] as an association list in insertion order: assigning
    to a key already present replaces the value where it stands. *)
Section Dict.
Variables K V : Type.
Variable eqb : K -> K -> bool.

Fixpoint dict_set (k : K) (v : V) (d : list (K * V)) : list (K * V) :=
  match d with
  | [] => [(k, v)]
  | (k', v') :: d' =>
      if eqb k k' then (k, v) :: d' else (k', v') :: dict_set k v d'
  end.

Fixpoint dict_get (k : K) (d : list (K * V)) : option V :=
  match d with
  | [] => None
  | (k', v') :: d' => if eqb k k' then Some v' else dict_get k d'
  end.
End Dict.
Arguments dict_set {K V} eqb k v d.
Arguments dict_get {K V} eqb k d.

(** Python builtins whose tables are not reproduced here: [str.lower],
    [repr] of a [str], [int] of a [str] ([None] where Python raises
    [ValueError]), and [str] of a [float]. *)
Record Builtins : Type := {
  lower : str -> str;
  repr : str -> str;
  int_of_str : str -> option Z;
  str_of_float : float -> str
}.

Section World.

Variable P : PyMOL2.
Variable B : Builtins.

(** A [pymol2.PyMOL] object. *)
Record Instance : Type := {
  inst_id : nat;
  inst_engine : Engine P
}.

(** The Python state both modules act on.  [spawned], [live], [stopped]
    and [submitted] record history only: instances constructed, instances
    started and not yet stopped, [stop()] calls in order, and the strings
    handed to [cmd.do] in order. *)
Record World : Type := {
  _pymol : option Instance;
  sys_stdout : Stream;
  terminal : str;
  buffers : list str;
  spawned : nat;
  live : list nat;
  stopped : list nat;
  submitted : list str
}.

Definition initial_world : World :=
  {| _pymol := None; sys_stdout := Terminal; terminal := []; buffers := [];
     spawned := 0; live := []; stopped := []; submitted := [] |}.

Definition set_pymol (h : option Instance) (w : World) : World :=
  {| _pymol := h; sys_stdout := sys_stdout w; terminal := terminal w;
     buffers := buffers w; spawned := spawned w; live := live w;
     stopped := stopped w; submitted := submitted w |}.

Definition set_stdout (s : Stream) (w : World) : World :=
  {| _pymol := _pymol w; sys_stdout := s; terminal := terminal w;
     buffers := buffers w; spawned := spawned w; live := live w;
     stopped := stopped w; submitted := submitted w |}.

Definition set_terminal (t : str) (w : World) : World :=
  {| _pymol := _pymol w; sys_stdout := sys_stdout w; terminal := t;
     buffers := buffers w; spawned := spawned w; live := live w;
     stopped := stopped w; submitted := submitted w |}.

Definition set_buffers (b : list str) (w : World) : World :=
  {| _pymol := _pymol w; sys_stdout := sys_stdout w; terminal := terminal w;
     buffers := b; spawned := spawned w; live := live w;
     stopped := stopped w; submitted := submitted w |}.

Definition log_submitted (c : str) (w : World) : World :=
  {| _pymol := _pymol w; sys_stdout := sys_stdout w; terminal := terminal w;
     buffers := buffers w; spawned := spawned w; live := live w;
     stopped := stopped w; submitted := submitted w ++ [c] |}.

(** [buf.write(t)] on the [i]-th buffer. *)
Fixpoint buf_write (i : nat) (t : str) (bs : list str) : list str :=
  match bs, i with
  | b :: bs', O => (b ++ t) :: bs'
  | b :: bs', S i' => b :: buf_write i' t bs'
  | [], _ => []
  end.

(** [buf.getvalue()] *)
Definition getvalue (i : nat) (w : World) : str := nth i (buffers w) [].

(** [sys.stdout.write(t)] *)
Definition write (t : str) (w : World) : World :=
  match sys_stdout w with
  | Terminal => set_terminal (terminal w ++ t) w
  | StringIO i => set_buffers (buf_write i t (buffers w)) w
  end.

(** [print(t)] *)
Definition print (t : str) (w : World) : World := write (t ++ newline) w.

(** [io.StringIO()]: a fresh empty buffer. *)
Definition new_StringIO (w : World) : nat * World :=
  (length (buffers w), set_buffers (buffers w ++ [[]]) w).

(* ------------------------------------------------------------------ *)
(** ** pymol_interface.py: singleton session management *)
(* ------------------------------------------------------------------ *)

(** [get_session()]: construct and start an instance when [_pymol] is
    [None], return the held one otherwise. *)
Definition get_session (w : World) : Instance * World :=
  match _pymol w with
  | None =>
      let i := {| inst_id := spawned w; inst_engine := started P |} in
      (i, {| _pymol := Some i; sys_stdout := sys_stdout w;
             terminal := terminal w; buffers := buffers w;
             spawned := S (spawned w); live := spawned w :: live w;
             stopped := stopped w; submitted := submitted w |})
  | Some i => (i, w)
  end.

Fixpoint remove_id (n : nat) (l : list nat) : list nat :=
  match l with
  | [] => []
  | m :: l' => if Nat.eqb n m then remove_id n l' else m :: remove_id n l'
  end.

(** [close_session()]: stop the held instance and clear [_pymol]; nothing
    when [_pymol] is [None]. *)
Definition close_session (w : World) : World :=
  match _pymol w with
  | Some i =>
      {| _pymol := None; sys_stdout := sys_stdout w;
         terminal := terminal w; buffers := buffers w;
         spawned := spawned w; live := remove_id (inst_id i) (live w);
         stopped := stopped w ++ [inst_id i]; submitted := submitted w |}
  | None => w
  end.

(** The engine a [get_session().cmd] call made now would act on. *)
Definition current_engine (w : World) : Engine P :=
  match _pymol w with
  | Some i => inst_engine i
  | None => started P
  end.

(** In-place change of the held instance's engine state. *)
Definition set_engine (i : Instance) (e : Engine P) (w : World) : World :=
  set_pymol (Some {| inst_id := inst_id i; inst_engine := e |}) w.

(* ------------------------------------------------------------------ *)
(** ** pymol_interface.py: core interface functions *)
(* ------------------------------------------------------------------ *)

(** [', '.join(chains) or 'none'] *)
Definition chains_text (chains : list str) : str :=
  let joined := join (lit ", ") chains in
  if nonempty joined then joined else lit "none".

Definition object_line (e : Engine P) (obj : str) : str :=
  lit "  - " ++ obj ++ lit ": " ++ str_of_int (cmd_count_atoms P obj e)
  ++ lit " atoms, chains: " ++ chains_text (cmd_get_chains P obj e).

Definition selection_line (e : Engine P) (sel : str) : str :=
  lit "  - " ++ sel ++ lit ": " ++ str_of_int (cmd_count_atoms P sel e)
  ++ lit " atoms".

(** The body of [get_session_state] once [cmd] is in hand. *)
Definition session_report (e : Engine P) : str :=
  let objects := cmd_get_object_list P e in
  let selections := cmd_get_names P (lit "selections") e in
  let lines :=
    match objects with
    | _ :: _ => lit "Loaded objects:" :: map (object_line e) objects
    | [] => [lit "No objects loaded."]
    end in
  let lines :=
    match selections with
    | _ :: _ => lines ++ lit "Active selections:" :: map (selection_line e) selections
    | [] => lines
    end in
  join newline lines.

Definition get_session_state (w : World) : str * World :=
  let (i, w1) := get_session w in
  (session_report (inst_engine i), w1).

(** [execute_command(cmd_string)]: the [try]/[finally] rebinds
    [sys.stdout] on both exits; the exception, if any, is re-raised after
    the [finally] block. *)
Definition execute_command (cmd_string : str) (w : World) : Result str * World :=
  let cmd_string := strip cmd_string in
  if negb (nonempty cmd_string) then (Ok [], w)
  else
    let old_stdout := sys_stdout w in
    let (buf, w1) := new_StringIO w in
    let w2 := set_stdout (StringIO buf) w1 in
    let (i, w3) := get_session w2 in
    let '(e', printed, exn) := cmd_do P cmd_string (inst_engine i) in
    let w4 := write printed (set_engine i e' (log_submitted cmd_string w3)) in
    let w5 := set_stdout old_stdout w4 in
    match exn with
    | Some e => (Raise e, w5)
    | None => (Ok (strip (getvalue buf w5)), w5)
    end.

(** [capture_output] *)
Definition capture_output (pymol_cmd_string : str) (w : World) : Result str * World :=
  execute_command pymol_cmd_string w.

(* ------------------------------------------------------------------ *)
(** ** pymol_interface.py: per-residue RMSD *)
(* ------------------------------------------------------------------ *)

(** [space["residues"]] after [cmd.iterate(sel, "residues[resi] = (model,
    chain, resi, resn)", space=space)]. *)
Definition collect_residues (atoms : list Atom) : list (str * Atom) :=
  fold_left (fun d a => match a with
                        | (_, _, resi, _) => dict_set str_eqb resi a d
                        end) atoms [].

(** [val >= 0] *)
Definition ge0 (val : float) : bool := PrimFloat.leb 0%float val.

(** The [cmd.rms_cur(mobile_sel, target_sel, matchmaker=4)] call made for
    one residue. *)
Definition residue_rms (mobile target : str) (e : Engine P) (a : Atom)
  : Result float :=
  match a with
  | (_, chain, resi_str, _) =>
      let mobile_sel := mobile ++ lit " and chain " ++ chain ++ lit " and resi "
                        ++ resi_str ++ lit " and name CA" in
      let target_sel := target ++ lit " and chain " ++ chain ++ lit " and resi "
                        ++ resi_str ++ lit " and name CA" in
      cmd_rms_cur P mobile_sel target_sel e
  end.

(** [val] after the [try]/[except]: [rms_cur]'s value, or [0.0] when it
    raises. *)
Definition residue_value (mobile target : str) (e : Engine P) (a : Atom) : float :=
  match residue_rms mobile target e a with
  | Ok val => val
  | Raise _ => 0%float
  end.

(** [int(resi_str)] *)
Definition py_int (s : str) : Result Z :=
  match int_of_str B s with
  | Some n => Ok n
  | None => Raise (Exception (lit "invalid literal for int() with base 10: "
                              ++ repr B s))
  end.

(** The [for resi, (model, chain, resi_str, resn) in ...items()] loop. *)
Fixpoint rmsd_loop (mobile target : str) (e : Engine P)
         (items : list (str * Atom)) (rmsd_by_resi : list (Z * float))
  : Result (list (Z * float)) :=
  match items with
  | [] => Ok rmsd_by_resi
  | (_, a) :: items' =>
      let val := residue_value mobile target e a in
      if ge0 val then
        match a with
        | (_, _, resi_str, _) =>
            match py_int resi_str with
            | Ok n => rmsd_loop mobile target e items' (dict_set Z.eqb n val rmsd_by_resi)
            | Raise ex => Raise ex
            end
        end
      else rmsd_loop mobile target e items' rmsd_by_resi
  end.

(** [max(values)] on a non-empty sequence. *)
Definition py_max (x : float) (rest : list float) : float :=
  fold_left (fun m y => if PrimFloat.ltb m y then y else m) rest x.

Definition per_residue_rmsd (mobile target : str) (w : World)
  : Result (list (Z * float)) * World :=
  let (i, w1) := get_session w in
  let e := inst_engine i in
  let residues := collect_residues (cmd_iterate P (mobile ++ lit " and name CA") e) in
  match rmsd_loop mobile target e residues [] with
  | Raise ex => (Raise ex, w1)
  | Ok [] => (Ok [], w1)
  | Ok (((_, v0) :: more) as rmsd_by_resi) =>
      let max_rmsd := py_max v0 (map snd more) in
      let e1 := fold_left
                  (fun e kv => cmd_alter P (mobile ++ lit " and resi " ++ str_of_int (fst kv))
                                         (lit "b = " ++ str_of_float B (snd kv)) e)
                  rmsd_by_resi e in
      let e2 := cmd_spectrum P (lit "b") (lit "blue_white_red") mobile 0%Z max_rmsd e1 in
      (Ok rmsd_by_resi, set_engine i e2 w1)
  end.

End World.

Arguments _pymol {P} w.
Arguments sys_stdout {P} w.
Arguments terminal {P} w.
Arguments buffers {P} w.
Arguments spawned {P} w.
Arguments live {P} w.
Arguments stopped {P} w.
Arguments submitted {P} w.
Arguments inst_id {P} i.
Arguments inst_engine {P} i.
Arguments set_pymol {P} h w.
Arguments set_stdout {P} s w.
Arguments set_terminal {P} t w.
Arguments set_buffers {P} b w.
Arguments set_engine {P} i e w.
Arguments log_submitted {P} c w.
Arguments getvalue {P} i w.
Arguments write {P} t w.
Arguments print {P} t w.
Arguments new_StringIO {P} w.
Arguments get_session {P} w.
Arguments close_session {P} w.
Arguments current_engine {P} w.
Arguments get_session_state {P} w.
Arguments execute_command {P} cmd_string w.
Arguments capture_output {P} pymol_cmd_string w.
Arguments per_residue_rmsd {P} B mobile target w.
Arguments residue_rms {P} mobile target e a.
Arguments residue_value {P} mobile target e a.
Arguments rmsd_loop {P} B mobile target e items rmsd_by_resi.

(* ------------------------------------------------------------------ *)
(** ** agent.py: the conversation loop *)
(* ------------------------------------------------------------------ *)

Inductive Role : Type := user | assistant.

(** One entry of [conversation_history]. *)
Record Message : Type := {
  role : Role;
  content : str
}.

(** How lines 97-109 end.  [Reply text]: [client.messages.create] returned
    and [response.content[0].text] is [text].  [APIError e]: the call
    raised an [anthropic.APIError], the one class line 104 catches.
    [Uncaught e]: any other exception left the statement: one raised by
    the call that is not an [anthropic.APIError] (a [TypeError] for a
    missing key, a [KeyboardInterrupt]), or the [IndexError] /
    [AttributeError] of [response.content[0].text] on line 109, which is
    outside the [try]. *)
Inductive Completion : Type :=
| Reply (text : str)
| APIError (e : Exn)
| Uncaught (e : Exn).

(** The language-model client.  [messages_create model max_tokens system
    messages] may answer differently on each call, hence the client state. *)
Record Anthropic : Type := {
  Client : Type;
  new_client : Client;
  messages_create : str -> Z -> str -> list Message -> Client -> Completion * Client
}.

Definition MODEL : str := lit "claude-haiku-4-5-20251001".
Definition MAX_TOKENS : Z := 2048.

(** What [input("You: ")] yields: a line, or [EOFError] /
    [KeyboardInterrupt]. *)
Inductive Input : Type :=
| Line (text : str)
| Interrupted.

(** How one pass through the [while True] body ends: [continue] or the
    end of the body, [break], or an exception nothing in [run_agent]
    catches. *)
Inductive Next : Type :=
| Continue
| Break
| Propagate (e : Exn).

(** Where [run_agent] stands on the inputs received so far.  [Raised e]:
    it was left by the exception [e]. *)
Inductive Status : Type :=
| AwaitingInput
| Closed
| Raised (e : Exn).

Definition arrow : str := [8594%N].

Section Agent.

Variable P : PyMOL2.
Variable B : Builtins.
Variable A : Anthropic.
Variable system_prompt : str.

(** The locals of [run_agent] together with the interpreter state.
    [requests] records history only: the [messages] argument of every
    [client.messages.create] call, in order. *)
Record Config : Type := {
  conversation_history : list Message;
  mode : str;
  pending_outputs : list str;
  world : World P;
  client : Client A;
  requests : list (list Message)
}.

Definition set_history (h : list Message) (c : Config) : Config :=
  {| conversation_history := h; mode := mode c;
     pending_outputs := pending_outputs c; world := world c;
     client := client c; requests := requests c |}.

Definition set_mode (m : str) (c : Config) : Config :=
  {| conversation_history := conversation_history c; mode := m;
     pending_outputs := pending_outputs c; world := world c;
     client := client c; requests := requests c |}.

Definition set_pending (p : list str) (c : Config) : Config :=
  {| conversation_history := conversation_history c; mode := mode c;
     pending_outputs := p; world := world c;
     client := client c; requests := requests c |}.

Definition set_world (w : World P) (c : Config) : Config :=
  {| conversation_history := conversation_history c; mode := mode c;
     pending_outputs := pending_outputs c; world := w;
     client := client c; requests := requests c |}.

Definition say (t : str) (c : Config) : Config :=
  set_world (print t (world c)) c.

(** The context appended to the user's text (lines 81-89): the session
    report, the mode label and, when there are any, the pending outputs. *)
Definition context_parts (state m : str) (pending : list str) : list str :=
  [newline ++ newline ++ lit "Current PyMOL session state:" ++ newline ++ state;
   lit "Current mode: " ++ m]
  ++ match pending with
     | _ :: _ => [lit "Outputs from commands executed last turn:" ++ newline
                  ++ join newline pending]
     | [] => []
     end.

(** The user turn built for [user_input] in configuration [c]. *)
Definition user_turn (user_input : str) (c : Config) : Message :=
  {| role := user;
     content := user_input
                ++ join newline
                     (context_parts (session_report P (current_engine (world c)))
                                    (mode c) (pending_outputs c)) |}.

(** Lines 81-94: build the user turn and append it. *)
Definition build_context (user_input : str) (c : Config) : Config :=
  let (state, w1) := get_session_state (world c) in
  let parts := context_parts state (mode c) (pending_outputs c) in
  {| conversation_history :=
       conversation_history c
       ++ [{| role := user; content := user_input ++ join newline parts |}];
     mode := mode c;
     pending_outputs := [];
     world := w1;
     client := client c;
     requests := requests c |}.

Definition success_descriptor (cmd output : str) : str :=
  lit "  " ++ repr B cmd ++ lit " " ++ arrow ++ lit " " ++ output.

Definition failure_descriptor (cmd : str) (e : Exn) : str :=
  lit "  Command " ++ repr B cmd ++ lit " failed: " ++ str_of_exn e.

(** Lines 116-128: the [for cmd in commands] loop. *)
Fixpoint executing_commands (commands : list str) (c : Config) : Config :=
  match commands with
  | [] => c
  | cmd :: rest =>
      let c1 := say (lit "[CMD] " ++ cmd) c in
      match execute_command cmd (world c1) with
      | (Raise e, w2) =>
          let output := lit "ERROR: " ++ str_of_exn e in
          let c3 := say (lit "      ! " ++ output) (set_world w2 c1) in
          executing_commands rest
            (set_pending (pending_outputs c3 ++ [failure_descriptor cmd e]) c3)
      | (Ok output, w2) =>
          match output with
          | _ :: _ =>
              let c3 := say (lit "      " ++ arrow ++ lit " " ++ output)
                            (set_world w2 c1) in
              executing_commands rest
                (set_pending (pending_outputs c3 ++ [success_descriptor cmd output]) c3)
          | [] => executing_commands rest (set_world w2 c1)
          end
      end
  end.

(** Lines 97-131: call the model, then roll back or commit and execute.
    An exception that is not an [anthropic.APIError] passes the [except]
    clause: the user turn stays in the history and nothing is printed to
    [sys.stdout]. *)
Definition await_model (c : Config) : Next * Config :=
  let (result, cl) :=
    messages_create A MODEL MAX_TOKENS system_prompt
                    (conversation_history c) (client c) in
  let c1 := {| conversation_history := conversation_history c; mode := mode c;
               pending_outputs := pending_outputs c; world := world c;
               client := cl;
               requests := requests c ++ [conversation_history c] |} in
  match result with
  | APIError e =>
      let c2 := say (lit "[ERROR] API call failed: " ++ str_of_exn e ++ newline) c1 in
      (Continue, set_history (removelast (conversation_history c2)) c2)
  | Uncaught e => (Propagate e, c1)
  | Reply reply =>
      let c2 := set_history (conversation_history c1
                             ++ [{| role := assistant; content := reply |}]) c1 in
      let c3 := say (newline ++ lit "Agent: " ++ reply ++ newline) c2 in
      let commands := extract_commands reply in
      let c4 := executing_commands commands c3 in
      (Continue, match commands with
                 | _ :: _ => say [] c4
                 | [] => c4
                 end)
  end.

(** [input("You: ")] has written its prompt. *)
Definition prompted (c : Config) : Config :=
  set_world (write (lit "You: ") (world c)) c.

(** One pass through the body of [while True] (lines 61-131). *)
Definition iteration (ev : Input) (c : Config) : Next * Config :=
  let c := prompted c in
  match ev with
  | Interrupted => (Break, say (newline ++ lit "Exiting.") c)
  | Line text =>
      let user_input := strip text in
      if negb (nonempty user_input) then (Continue, c)
      else if str_in (lower B user_input) [lit "quit"; lit "exit"; lit "bye"]
      then (Break, say (lit "Goodbye.") c)
      else if str_in (lower B user_input) [lit "guided"; lit "expert"]
      then
        let c := set_mode (lower B user_input) c in
        (Continue, say (lit "Switched to " ++ mode c ++ lit " mode." ++ newline) c)
      else await_model (build_context user_input c)
  end.

(** The [while True] loop on the inputs received so far. *)
Fixpoint loop (events : list Input) (c : Config) : Next * Config :=
  match events with
  | [] => (Continue, c)
  | ev :: rest =>
      match iteration ev c with
      | (Continue, c') => loop rest c'
      | (Break, c') => (Break, c')
      | (Propagate e, c') => (Propagate e, c')
      end
  end.

Definition startup (start_mode : str) (w : World P) : Config :=
  say (lit "Type 'guided' or 'expert' to switch modes, 'quit' to exit." ++ newline)
    (say (lit "PyMOL Agent ready (mode: " ++ start_mode ++ lit ").")
       {| conversation_history := []; mode := start_mode; pending_outputs := [];
          world := w; client := new_client A; requests := [] |}).

(** [run_agent(start_mode)] on the given inputs: [Closed] once the loop was
    left by [break] and [close_session()] has run, [AwaitingInput] while
    the loop waits for a line the inputs do not hold yet.  Line 133 is not
    in a [finally]: an exception that leaves the loop leaves [run_agent]
    too, and [close_session()] is not reached; the configuration is then
    the one at the [raise]. *)
Definition run_agent (start_mode : str) (events : list Input) (w : World P)
  : Status * Config :=
  match loop events (startup start_mode w) with
  | (Break, c) => (Closed, set_world (close_session (world c)) c)
  | (Continue, c) => (AwaitingInput, c)
  | (Propagate e, c) => (Raised e, c)
  end.

End Agent.

Arguments conversation_history {P A} c.
Arguments mode {P A} c.
Arguments pending_outputs {P A} c.
Arguments world {P A} c.
Arguments client {P A} c.
Arguments requests {P A} c.
Arguments set_history {P A} h c.
Arguments set_mode {P A} m c.
Arguments set_pending {P A} p c.
Arguments set_world {P A} w c.
Arguments say {P A} t c.
Arguments build_context {P A} user_input c.
Arguments user_turn {P A} user_input c.
Arguments prompted {P A} c.
Arguments executing_commands {P} B {A} commands c.
Arguments await_model {P} B {A} system_prompt c.
Arguments iteration {P} B {A} system_prompt ev c.
Arguments loop {P} B {A} system_prompt events c.
Arguments startup {P} A start_mode w.
Arguments run_agent {P} B A system_prompt start_mode events w.

(* ------------------------------------------------------------------ *)
(** ** Command extraction: what the specification asks for *)
(* ------------------------------------------------------------------ *)

(** [Blocks text bodies]: [bodies] are the substrings enclosed in
    delimiter pairs, in document order.  The first pair is the leftmost
    open delimiter together with the nearest close delimiter after it; the
    remaining pairs are those of the text after that close delimiter.  A
    text with no open delimiter that has a close delimiter after it holds
    no block. *)
Inductive Blocks : str -> list str -> Prop :=
| Blocks_none : forall text,
    (forall pre body rest, text <> pre ++ OPEN ++ body ++ CLOSE ++ rest) ->
    Blocks text []
| Blocks_next : forall pre body rest bodies,
    (forall a b, pre ++ OPEN ++ body ++ CLOSE ++ rest = a ++ OPEN ++ b ->
                 length pre <= length a) ->
    (forall a b, body ++ CLOSE ++ rest = a ++ CLOSE ++ b ->
                 length body <= length a) ->
    Blocks rest bodies ->
    Blocks (pre ++ OPEN ++ body ++ CLOSE ++ rest) (body :: bodies).

(** [Trimmed s t]: [t] is [s] without its leading and trailing
    whitespace. *)
Definition Trimmed (s t : str) : Prop :=
  exists l r, s = l ++ t ++ r
              /\ forallb isspace l = true /\ forallb isspace r = true
              /\ (forall c u, t = c :: u -> isspace c = false)
              /\ (forall u c, t = u ++ [c] -> isspace c = false).

(** [TrimmedNonempty bodies cmds]: [cmds] are the bodies, each trimmed,
    those that are empty after trimming dropped, order kept. *)
Inductive TrimmedNonempty : list str -> list str -> Prop :=
| TN_nil : TrimmedNonempty [] []
| TN_keep : forall b t bs ts,
    Trimmed b t -> t <> [] -> TrimmedNonempty bs ts ->
    TrimmedNonempty (b :: bs) (t :: ts)
| TN_drop : forall b bs ts,
    Trimmed b [] -> TrimmedNonempty bs ts ->
    TrimmedNonempty (b :: bs) ts.

(* ------------------------------------------------------------------ *)
(** ** Session report: what the specification asks for *)
(* ------------------------------------------------------------------ *)

(** The chains field as the specification words it: the comma-joined
    identifiers, or the marker for an object with zero chains. *)
Definition chains_field_spec (chains : list str) : str :=
  match chains with
  | [] => lit "none"
  | _ :: _ => join (lit ", ") chains
  end.

(** The chains field with the marker standing wherever the joined text
    is empty: zero chains, or one chain whose identifier is empty. *)
Definition chains_field_marker_if_blank (chains : list str) : str :=
  match chains with
  | [] | [[]] => lit "none"
  | _ => join (lit ", ") chains
  end.

Section ReportSpec.

Variable P : PyMOL2.
Variable chains_field : list str -> str.

(** The single line when nothing is loaded; otherwise a header and one
    line per object with its name, atom count and chains field. *)
Definition objects_section (e : Engine P) : list str :=
  match cmd_get_object_list P e with
  | [] => [lit "No objects loaded."]
  | objs =>
      lit "Loaded objects:"
      :: map (fun obj =>
                lit "  - " ++ obj ++ lit ": "
                ++ str_of_int (cmd_count_atoms P obj e)
                ++ lit " atoms, chains: "
                ++ chains_field (cmd_get_chains P obj e)) objs
  end.

(** Present when there is a selection, absent otherwise: a header and
    one line per selection with its name and atom count. *)
Definition selections_section (e : Engine P) : list str :=
  match cmd_get_names P (lit "selections") e with
  | [] => []
  | sels =>
      lit "Active selections:"
      :: map (fun sel =>
                lit "  - " ++ sel ++ lit ": "
                ++ str_of_int (cmd_count_atoms P sel e) ++ lit " atoms") sels
  end.

Definition report_with (e : Engine P) : str :=
  join newline (objects_section e ++ selections_section e).

End ReportSpec.

(* ------------------------------------------------------------------ *)
(** ** Session lifecycle: calls on the wrapper, in any order *)
(* ------------------------------------------------------------------ *)

Inductive Call : Type :=
| CallGetSession
| CallCloseSession
| CallGetSessionState
| CallExecuteCommand (cmd_string : str)
| CallPerResidueRmsd (mobile target : str).

Section Calls.

Variable P : PyMOL2.
Variable B : Builtins.

Definition call (c : Call) (w : World P) : World P :=
  match c with
  | CallGetSession => snd (get_session w)
  | CallCloseSession => close_session w
  | CallGetSessionState => snd (get_session_state w)
  | CallExecuteCommand s => snd (execute_command s w)
  | CallPerResidueRmsd m t => snd (per_residue_rmsd B m t w)
  end.

Definition calls (cs : list Call) (w : World P) : World P :=
  fold_left (fun w c => call c w) cs w.

(** The identifiers of the instances [_pymol] holds. *)
Definition held (w : World P) : list nat :=
  match _pymol w with
  | Some i => [inst_id i]
  | None => []
  end.

(** Every instance constructed so far was stopped, once, or is the one
    [_pymol] holds. *)
Definition lifecycle_ok (w : World P) : Prop :=
  live w = held w /\ stopped w ++ live w = seq 0 (spawned w).

(** Steps that keep the held instance's identity and the history of
    constructions and stops. *)
Definition same_lifecycle (w w' : World P) : Prop :=
  held w' = held w /\ live w' = live w /\ stopped w' = stopped w
  /\ spawned w' = spawned w.

(** While the agent's loop runs: the lifecycle record is in order and
    nothing has been stopped yet. *)
Definition running_ok (w : World P) : Prop :=
  lifecycle_ok w /\ stopped w = [].

End Calls.

Arguments call {P} B c w.
Arguments calls {P} B cs w.
Arguments held {P} w.
Arguments lifecycle_ok {P} w.
Arguments same_lifecycle {P} w w'.
Arguments running_ok {P} w.

(* ------------------------------------------------------------------ *)
(** ** Command execution: what the specification asks for *)
(* ------------------------------------------------------------------ *)

Section ExecutionSpec.

Variable P : PyMOL2.
Variable B : Builtins.

(** The commands run on the engine alone, left to right, each on the
    state its predecessor left, whether that one raised or not: every
    command paired with its outcome. *)
Fixpoint engine_outcomes (cmds : list str) (e : Engine P)
  : list (str * Result str) :=
  match cmds with
  | [] => []
  | cmd :: rest =>
      let '(e', printed, exn) := cmd_do P cmd e in
      (cmd, match exn with
            | Some x => Raise x
            | None => Ok (strip printed)
            end) :: engine_outcomes rest e'
  end.

(** The engine state after those commands. *)
Fixpoint engine_after (cmds : list str) (e : Engine P) : Engine P :=
  match cmds with
  | [] => e
  | cmd :: rest =>
      let '(e', _, _) := cmd_do P cmd e in engine_after rest e'
  end.

(** The descriptor an outcome contributes: none for a success with empty
    output, a success descriptor for one with output, a failure descriptor
    for a failure. *)
Definition descriptors_of (o : str * Result str) : list str :=
  match o with
  | (cmd, Raise e) => [failure_descriptor B cmd e]
  | (cmd, Ok []) => []
  | (cmd, Ok output) => [success_descriptor B cmd output]
  end.

(** A command as [extract_commands] yields it: trimmed and not empty. *)
Definition clean (cmd : str) : Prop := strip cmd = cmd /\ cmd <> [].

End ExecutionSpec.

Arguments engine_outcomes {P} cmds e.
Arguments engine_after {P} cmds e.

(** Is [needle] a substring of [hay]? *)
Fixpoint contains (needle hay : str) : bool :=
  starts_with needle hay
  || match hay with
     | [] => false
     | _ :: hay' => contains needle hay'
     end.

(** The words that end the session and those that switch the mode. *)
Definition quit_words : list str := [lit "quit"; lit "exit"; lit "bye"].
Definition mode_words : list str := [lit "guided"; lit "expert"].

(** Is this line forwarded to the model? *)
Definition forwarded (B : Builtins) (text : str) : bool :=
  nonempty (strip text)
  && negb (str_in (lower B (strip text)) quit_words)
  && negb (str_in (lower B (strip text)) mode_words).

(** Does this input end the conversation?  A quit word, in any case and
    with blanks around it, or the end of the input / an interrupt. *)
Definition leaves (B : Builtins) (ev : Input) : bool :=
  match ev with
  | Interrupted => true
  | Line text => nonempty (strip text) && str_in (lower B (strip text)) quit_words
  end.

(* ------------------------------------------------------------------ *)
(** ** Per-residue RMSD: what the result should hold *)
(* ------------------------------------------------------------------ *)

Definition resi_of (a : Atom) : str :=
  match a with (_, _, resi_str, _) => resi_str end.

Section RmsdSpec.

Variable P : PyMOL2.
Variable B : Builtins.

(** Does the residue's number read as the integer [k]? *)
Definition has_key (k : Z) (a : Atom) : bool :=
  match int_of_str B (resi_of a) with
  | Some n => Z.eqb k n
  | None => false
  end.

(** The value under key [k] once the residues have been visited in
    order: that of the last residue numbered [k] whose value is at least
    zero, [acc] when there is none. *)
Fixpoint expected_entry (mobile target : str) (e : Engine P)
         (items : list (str * Atom)) (k : Z) (acc : option float)
  : option float :=
  match items with
  | [] => acc
  | (_, a) :: rest =>
      let val := residue_value mobile target e a in
      expected_entry mobile target e rest k
        (if ge0 val && has_key k a then Some val else acc)
  end.

End RmsdSpec.

Arguments expected_entry {P} B mobile target e items k acc.

(* ------------------------------------------------------------------ *)
(** ** Concrete collaborators for the examples *)
(* ------------------------------------------------------------------ *)

Module Demo.

(** A session's content: objects with atom count and chains, selections
    with atom count, the atoms [cmd.iterate] visits, and what [rms_cur]
    answers for a mobile selection. *)
Record Scene : Type := {
  scene_objects : list (str * (Z * list str));
  scene_selections : list (str * Z);
  scene_atoms : list Atom;
  scene_rms : list (str * Result float)
}.

Definition empty_scene : Scene :=
  {| scene_objects := []; scene_selections := [];
     scene_atoms := []; scene_rms := [] |}.

(** A command named [fail] raises, one named [quiet] prints nothing, any
    other prints a line naming it. *)
Definition scene_do (c : str) (s : Scene) : Scene * str * option Exn :=
  if str_eqb c (lit "fail") then (s, [], Some (Exception (lit "boom")))
  else if str_eqb c (lit "quiet") then (s, [], None)
  else (s, lit " done " ++ c ++ newline, None).

Definition scene_count (name : str) (s : Scene) : Z :=
  match dict_get str_eqb name (scene_objects s) with
  | Some (n, _) => n
  | None =>
      match dict_get str_eqb name (scene_selections s) with
      | Some n => n
      | None => 0%Z
      end
  end.

Definition scene_chains (name : str) (s : Scene) : list str :=
  match dict_get str_eqb name (scene_objects s) with
  | Some (_, chains) => chains
  | None => []
  end.

Definition scene_rms_cur (mobile_sel target_sel : str) (s : Scene) : Result float :=
  match dict_get str_eqb mobile_sel (scene_rms s) with
  | Some r => r
  | None => Raise (Exception (lit "no atoms"))
  end.

(** An engine that starts out holding [s]. *)
Definition pymol (s : Scene) : PyMOL2 :=
  {| Engine := Scene;
     started := s;
     cmd_do := scene_do;
     cmd_get_object_list := fun e => map fst (scene_objects e);
     cmd_get_names := fun _ e => map fst (scene_selections e);
     cmd_count_atoms := scene_count;
     cmd_get_chains := scene_chains;
     cmd_iterate := fun _ e => scene_atoms e;
     cmd_rms_cur := scene_rms_cur;
     cmd_alter := fun _ _ e => e;
     cmd_spectrum := fun _ _ _ _ _ e => e |}.

(** [str.lower] on ASCII letters. *)
Definition ascii_lower (s : str) : str :=
  map (fun c => if ((65 <=? c) && (c <=? 90))%N then (c + 32)%N else c) s.

(** [repr] of a string of printable ASCII without quotes or backslashes. *)
Definition plain_repr (s : str) : str := lit "'" ++ s ++ lit "'".

(** [int] of a string of ASCII digits. *)
Definition digits_int (s : str) : option Z :=
  match s with
  | [] => None
  | _ =>
      fold_left (fun acc c =>
                   match acc with
                   | Some n => if ((48 <=? c) && (c <=? 57))%N
                               then Some (n * 10 + Z.of_N (c - 48))%Z
                               else None
                   | None => None
                   end) s (Some 0%Z)
  end.

(** [str] of a float, on the values the examples use. *)
Definition small_float_str (f : float) : str :=
  if PrimFloat.eqb f 0%float then lit "0.0"
  else if PrimFloat.eqb f 1.5%float then lit "1.5"
  else lit "nan".

Definition builtins : Builtins :=
  {| lower := ascii_lower; repr := plain_repr;
     int_of_str := digits_int; str_of_float := small_float_str |}.

(** A client that answers from a script, one entry per call. *)
Definition scripted (script : list Completion) : Anthropic :=
  {| Client := list Completion;
     new_client := script;
     messages_create := fun _ _ _ _ cl =>
       match cl with
       | r :: cl' => (r, cl')
       | [] => (APIError (Exception (lit "Connection error.")), [])
       end |}.

(** One object [X] with 5 atoms whose single chain has the empty
    identifier. *)
Definition blank_chain_scene : Scene :=
  {| scene_objects := [(lit "X", (5%Z, [[]]))]; scene_selections := [];
     scene_atoms := []; scene_rms := [] |}.

(** An engine with nothing loaded. *)
Definition bare : PyMOL2 := pymol empty_scene.

Definition system_prompt : str := lit "You drive a PyMOL session.".

(** The configuration [run_agent("guided")] enters its loop with. *)
Definition fresh (A : Anthropic) : Config bare A :=
  startup A (lit "guided") (initial_world bare).

(** A client whose every call raises. *)
Definition offline : Anthropic := scripted [].

(** Three residues of chain A: [rms_cur] gives 1.5 for the first, the
    negative sentinel for the second, and raises for the third. *)
Definition rmsd_scene : Scene :=
  {| scene_objects := []; scene_selections := [];
     scene_atoms := [(lit "m", lit "A", lit "1", lit "ALA");
                     (lit "m", lit "A", lit "2", lit "GLY");
                     (lit "m", lit "A", lit "3", lit "SER")];
     scene_rms := [(lit "m and chain A and resi 1 and name CA", Ok 1.5%float);
                   (lit "m and chain A and resi 2 and name CA", Ok (-1)%float)] |}.

(** A reply with one command, an API failure on the next call, then a
    plain reply. *)
Definition flaky : Anthropic :=
  scripted [Reply (lit "Zooming. <pymol>zoom</pymol>");
            APIError (Exception (lit "Connection error."));
            Reply (lit "Anything else?")].

End Demo.

(* ------------------------------------------------------------------ *)
(** ** Command extraction: proofs *)
(* ------------------------------------------------------------------ *)

Section ExtractProofs.

Lemma length_OPEN : length OPEN = 7.
Proof. reflexivity. Qed.

Lemma length_CLOSE : length CLOSE = 8.
Proof. reflexivity. Qed.

Local Opaque OPEN CLOSE.

Lemma starts_with_app (p t : str) : starts_with p (p ++ t) = true.
Proof.
  induction p as [|a p IH]; simpl; [reflexivity|].
  now rewrite N.eqb_refl, IH.
Qed.

Lemma starts_with_inv (p s : str) :
  starts_with p s = true -> s = p ++ skipn (length p) s.
Proof.
  revert s; induction p as [|a p IH]; intros s H; simpl in *; [reflexivity|].
  destruct s as [|b s]; [discriminate|].
  apply andb_prop in H as [Hab Hps].
  apply N.eqb_eq in Hab; subst b.
  simpl. f_equal. now apply IH.
Qed.

Lemma starts_with_false (p s : str) :
  starts_with p s = false -> forall t, s <> p ++ t.
Proof.
  intros H t ->. now rewrite starts_with_app in H.
Qed.

Lemma lazy_until_sound (c s g r : str) :
  lazy_until c s = Some (g, r) ->
  s = g ++ c ++ r /\ (forall a b, s = a ++ c ++ b -> length g <= length a).
Proof.
  revert g r; induction s as [|x s IH]; intros g r H.
  - simpl in H. destruct (starts_with c []) eqn:E; [|discriminate].
    injection H as <- <-. split; [|intros; simpl; lia].
    now apply starts_with_inv in E.
  - cbn [lazy_until] in H. destruct (starts_with c (x :: s)) eqn:E.
    + injection H as <- <-. split; [|intros; simpl; lia].
      now apply starts_with_inv in E.
    + destruct (lazy_until c s) as [[g' r']|] eqn:L; [|discriminate].
      injection H as <- <-.
      destruct (IH _ _ eq_refl) as [Hs Hmin]. split.
      * simpl. now f_equal.
      * intros [|y a] b Hab.
        -- simpl in Hab. exfalso. now apply (starts_with_false _ _ E b).
        -- simpl in Hab. injection Hab as _ Hab. simpl.
           apply le_n_S. now apply (Hmin a b).
Qed.

Lemma lazy_until_complete (c s : str) :
  lazy_until c s = None -> forall a b, s <> a ++ c ++ b.
Proof.
  induction s as [|x s IH]; intros H a b Hab.
  - simpl in H. destruct (starts_with c []) eqn:E; [discriminate|].
    destruct a; simpl in Hab; [|discriminate].
    now apply (starts_with_false _ _ E b).
  - cbn [lazy_until] in H. destruct (starts_with c (x :: s)) eqn:E; [discriminate|].
    destruct (lazy_until c s) as [[g' r']|] eqn:L; [discriminate|].
    destruct a as [|y a]; simpl in Hab.
    + now apply (starts_with_false _ _ E b).
    + injection Hab as _ Hab. now apply (IH eq_refl a b).
Qed.

Lemma skipn_app_le {T} (n : nat) (a b : list T) :
  n <= length a -> skipn n (a ++ b) = skipn n a ++ b.
Proof.
  revert a; induction n as [|n IH]; intros a H; [reflexivity|].
  destruct a as [|x a]; simpl in *; [lia|]. apply IH. lia.
Qed.

(** A block of [x :: s] that does not start at [x] is a block of [s]. *)
Lemma Blocks_skip (x : char) (s : str) (l : list str) :
  starts_with OPEN (x :: s) = false ->
  Blocks s l -> Blocks (x :: s) l.
Proof.
  intros E H. destruct H as [text Hno | pre body rest bodies Hfirst Hnear Hrest].
  - apply Blocks_none. intros [|y pre] body rest Heq; simpl in Heq.
    + now apply (starts_with_false _ _ E (body ++ CLOSE ++ rest)).
    + injection Heq as _ Heq. now apply (Hno pre body rest).
  - change (x :: pre ++ OPEN ++ body ++ CLOSE ++ rest)
      with ((x :: pre) ++ OPEN ++ body ++ CLOSE ++ rest).
    apply Blocks_next; [|assumption|assumption].
    intros [|y a] b Heq; simpl in Heq.
    + exfalso. now apply (starts_with_false _ _ E b).
    + injection Heq as _ Heq. simpl. apply le_n_S. now apply (Hfirst a b).
Qed.

Lemma findall_fuel_Blocks (fuel : nat) :
  forall s, length s <= fuel -> Blocks s (findall_fuel fuel s).
Proof.
  induction fuel as [|fuel IH]; intros s Hlen.
  - destruct s; [|simpl in Hlen; lia]. simpl. apply Blocks_none.
    intros [|? ?] ? ? ?; discriminate.
  - destruct s as [|x s].
    + simpl. apply Blocks_none. intros [|? ?] ? ? ?; discriminate.
    + cbn [findall_fuel]. simpl in Hlen.
      destruct (starts_with OPEN (x :: s)) eqn:E.
      * pose proof (starts_with_inv _ _ E) as Hs.
        destruct (lazy_until CLOSE (skipn (length OPEN) (x :: s)))
          as [[g r]|] eqn:L.
        -- destruct (lazy_until_sound _ _ _ _ L) as [Ht Hmin].
           rewrite Hs, Ht.
           apply (Blocks_next [] g r); [intros; simpl; lia | | ].
           ++ rewrite <- Ht. exact Hmin.
           ++ apply IH.
              assert (length (x :: s) = length OPEN + (length g + (length CLOSE + length r))) as Hl.
              { rewrite Hs at 1. rewrite Ht. now rewrite !length_app. }
              rewrite length_OPEN, length_CLOSE in Hl. simpl in Hl. lia.
        -- pose proof (lazy_until_complete _ _ L) as Hno.
           assert (Hnone : forall pre body rest,
                      x :: s <> pre ++ OPEN ++ body ++ CLOSE ++ rest).
           { intros pre body rest Heq.
             apply (Hno (skipn (length OPEN) (pre ++ OPEN) ++ body) rest).
             rewrite Heq.
             replace (pre ++ OPEN ++ body ++ CLOSE ++ rest)
               with ((pre ++ OPEN) ++ body ++ CLOSE ++ rest)
               by now rewrite <- app_assoc.
             rewrite skipn_app_le by (rewrite length_app; lia).
             now rewrite <- app_assoc. }
           assert (Hs' : Blocks s (findall_fuel fuel s)) by (apply IH; lia).
           destruct Hs' as [text _ | pre body rest bodies _ _ _].
           ++ now apply Blocks_none.
           ++ exfalso. now apply (Hnone (x :: pre) body rest).
      * apply Blocks_skip; [assumption|]. apply IH. lia.
Qed.

Lemma app_eq_length {T} (a a' b b' : list T) :
  a ++ b = a' ++ b' -> length a = length a' -> a = a' /\ b = b'.
Proof.
  revert a'; induction a as [|x a IH]; intros [|y a'] H Hl; simpl in *;
    try discriminate; [now split|].
  injection H as -> H. injection Hl as Hl.
  destruct (IH _ H Hl) as [-> ->]. now split.
Qed.

Lemma Blocks_functional (s : str) (l1 l2 : list str) :
  Blocks s l1 -> Blocks s l2 -> l1 = l2.
Proof.
  intros H1; revert l2.
  induction H1 as [text Hno | pre body rest bodies Hfirst Hnear Hrest IH];
    intros l2 H2.
  - destruct H2 as [|pre body rest bodies _ _ _]; [reflexivity|].
    exfalso. now apply (Hno pre body rest).
  - remember (pre ++ OPEN ++ body ++ CLOSE ++ rest) as s eqn:Heq in H2.
    destruct H2 as [text Hno | pre' body' rest' bodies' Hfirst' Hnear' Hrest'].
    + exfalso. now apply (Hno pre body rest).
    + assert (length pre = length pre') as Hp.
      { apply Nat.le_antisymm.
        - apply (Hfirst pre' (body' ++ CLOSE ++ rest')). now symmetry.
        - apply (Hfirst' pre (body ++ CLOSE ++ rest)). exact Heq. }
      symmetry in Heq.
      destruct (app_eq_length _ _ _ _ Heq Hp) as [-> Heq1].
      apply app_inv_head in Heq1.
      assert (length body = length body') as Hb.
      { apply Nat.le_antisymm.
        - now apply (Hnear body' rest').
        - apply (Hnear' body rest). now symmetry. }
      destruct (app_eq_length _ _ _ _ Heq1 Hb) as [-> Heq2].
      apply app_inv_head in Heq2. subst rest'.
      f_equal. now apply IH.
Qed.

(** Any fuel from [length s] on gives the result of [findall]. *)
Lemma findall_fuel_enough (fuel : nat) (s : str) :
  length s <= fuel -> findall_fuel fuel s = findall s.
Proof.
  intros H. apply (Blocks_functional s).
  - now apply findall_fuel_Blocks.
  - apply findall_fuel_Blocks. apply Nat.le_refl.
Qed.

End ExtractProofs.

Section StripProofs.

Lemma lstrip_split (s : str) :
  exists l, s = l ++ lstrip s /\ forallb isspace l = true.
Proof.
  induction s as [|c s IH]; simpl.
  - now exists [].
  - destruct (isspace c) eqn:E.
    + destruct IH as [l [Hs Hl]]. exists (c :: l). split.
      * simpl. now f_equal.
      * simpl. now rewrite E.
    + now exists [].
Qed.

Lemma lstrip_head (s : str) (c : char) (u : str) :
  lstrip s = c :: u -> isspace c = false.
Proof.
  induction s as [|x s IH]; simpl; [discriminate|].
  destruct (isspace x) eqn:E; [assumption|].
  intros H. injection H as <- _. exact E.
Qed.

Lemma lstrip_spaces (l t : str) :
  forallb isspace l = true -> lstrip (l ++ t) = lstrip t.
Proof.
  induction l as [|x l IH]; simpl; [reflexivity|].
  intros H. apply andb_prop in H as [Hx Hl]. rewrite Hx. now apply IH.
Qed.

Lemma lstrip_all_spaces (l : str) :
  forallb isspace l = true -> lstrip l = [].
Proof.
  intros H. rewrite <- (app_nil_r l). now rewrite lstrip_spaces.
Qed.

Lemma lstrip_id (t : str) :
  (forall c u, t = c :: u -> isspace c = false) -> lstrip t = t.
Proof.
  destruct t as [|c u]; simpl; [reflexivity|].
  intros H. now rewrite (H c u eq_refl).
Qed.

Lemma forallb_rev {T} (f : T -> bool) (l : list T) :
  forallb f (rev l) = forallb f l.
Proof.
  induction l as [|x l IH]; simpl; [reflexivity|].
  rewrite forallb_app, IH. simpl. rewrite andb_true_r. apply andb_comm.
Qed.

(** [strip] meets the specification's notion of trimming... *)
Lemma strip_Trimmed (s : str) : Trimmed s (strip s).
Proof.
  unfold Trimmed, strip, rstrip.
  destruct (lstrip_split s) as [l [Hs Hl]].
  destruct (lstrip_split (rev (lstrip s))) as [r [Hr Hrs]].
  exists l, (rev r). repeat split.
  - rewrite <- rev_app_distr, <- Hr, rev_involutive. exact Hs.
  - exact Hl.
  - now rewrite forallb_rev.
  - intros c u Hcu.
    assert (lstrip s = c :: u ++ rev r) as Ht.
    { rewrite <- (rev_involutive (lstrip s)). rewrite Hr at 1.
      rewrite rev_app_distr, Hcu. reflexivity. }
    exact (lstrip_head _ _ _ Ht).
  - intros u c Huc.
    apply (lstrip_head (rev (lstrip s)) c (rev u)).
    rewrite <- (rev_involutive (lstrip (rev (lstrip s)))), Huc.
    now rewrite rev_app_distr.
Qed.

(** ... and is the only function that does. *)
Lemma Trimmed_strip (s t : str) : Trimmed s t -> t = strip s.
Proof.
  intros [l [r [Hs [Hl [Hr [Hhead Hlast]]]]]].
  unfold strip, rstrip. subst s. rewrite lstrip_spaces by assumption.
  destruct t as [|c u].
  - cbn [app]. now rewrite (lstrip_all_spaces r Hr).
  - cbn [app lstrip]. rewrite (Hhead c u eq_refl).
    change (c :: u ++ r) with ((c :: u) ++ r).
    rewrite rev_app_distr, lstrip_spaces by now rewrite forallb_rev.
    rewrite lstrip_id; [now rewrite rev_involutive|].
    intros x v Hx. apply (Hlast (rev v) x).
    rewrite <- (rev_involutive (c :: u)), Hx. reflexivity.
Qed.

Lemma strip_idempotent (s : str) : strip (strip s) = strip s.
Proof.
  symmetry. apply Trimmed_strip.
  destruct (strip_Trimmed s) as [l [r [_ [_ [_ [Hhead Hlast]]]]]].
  exists [], []. repeat split; try assumption.
  simpl. now rewrite app_nil_r.
Qed.

Lemma nonempty_iff (s : str) : nonempty s = true <-> s <> [].
Proof. destruct s; simpl; split; congruence. Qed.

Lemma TrimmedNonempty_extract (bodies : list str) :
  TrimmedNonempty bodies
    (map strip (filter (fun m => nonempty (strip m)) bodies)).
Proof.
  induction bodies as [|b bs IH]; simpl; [constructor|].
  destruct (nonempty (strip b)) eqn:E.
  - simpl. apply TN_keep; [apply strip_Trimmed | now apply nonempty_iff | exact IH].
  - apply TN_drop; [|exact IH].
    destruct (strip b) eqn:Eb; [|discriminate].
    rewrite <- Eb. apply strip_Trimmed.
Qed.

Lemma TrimmedNonempty_functional (bodies cmds : list str) :
  TrimmedNonempty bodies cmds ->
  cmds = map strip (filter (fun m => nonempty (strip m)) bodies).
Proof.
  induction 1 as [|b t bs ts Ht Hne _ IH | b bs ts Ht _ IH]; simpl.
  - reflexivity.
  - apply Trimmed_strip in Ht. subst t.
    apply nonempty_iff in Hne. rewrite Hne. simpl. now f_equal.
  - apply Trimmed_strip in Ht. now rewrite <- Ht.
Qed.

End StripProofs.

(** C4.  For every text, [extract_commands] returns exactly the command
    list the specification describes: the bodies of the delimiter pairs in
    document order (leftmost open delimiter, nearest close delimiter after
    it, then the same on the rest of the text; any character, a newline
    too, may stand inside a body; an open delimiter that no close delimiter
    follows yields no block), each body trimmed of leading and trailing
    whitespace and the ones that are empty after trimming dropped.  The
    function is total, so no input is an error, and the description
    determines the result. *)
Theorem extract_commands_correct :
  forall text cmds,
    extract_commands text = cmds <->
    exists bodies, Blocks text bodies /\ TrimmedNonempty bodies cmds.
Proof.
  intros text cmds. split.
  - intros <-. exists (findall text). split.
    + apply findall_fuel_Blocks. apply Nat.le_refl.
    + apply TrimmedNonempty_extract.
  - intros [bodies [Hb Ht]].
    assert (bodies = findall text) as ->.
    { apply (Blocks_functional text); [assumption|].
      apply findall_fuel_Blocks. apply Nat.le_refl. }
    symmetry. now apply TrimmedNonempty_functional.
Qed.

(* ------------------------------------------------------------------ *)
(** ** pymol_interface.py: proofs *)
(* ------------------------------------------------------------------ *)

(** Reduce record projections and pair projections, nothing else. *)
Ltac world_simpl :=
  cbn [fst snd _pymol sys_stdout terminal buffers spawned live stopped
       submitted inst_id inst_engine set_pymol set_stdout set_terminal
       set_buffers set_engine log_submitted getvalue new_StringIO write].

Section InterfaceProofs.

Variable P : PyMOL2.
Variable B : Builtins.

Lemma buf_write_fresh (bs : list str) (t : str) :
  nth (length bs) (buf_write (length bs) t (bs ++ [[]])) [] = t.
Proof.
  induction bs as [|b bs IH]; simpl; [reflexivity | exact IH].
Qed.

Lemma length_buf_write (i : nat) (t : str) (bs : list str) :
  length (buf_write i t bs) = length bs.
Proof.
  revert i; induction bs as [|b bs IH]; intros [|i]; simpl; auto.
Qed.

Lemma get_session_engine (w : World P) :
  inst_engine (fst (get_session w)) = current_engine w.
Proof. unfold get_session, current_engine. now destruct (_pymol w). Qed.

Lemma get_session_holds (w : World P) :
  _pymol (snd (get_session w)) = Some (fst (get_session w)).
Proof.
  unfold get_session. destruct (_pymol w) eqn:E; simpl; [exact E | reflexivity].
Qed.

Lemma get_session_frame (w : World P) :
  let w' := snd (get_session w) in
  sys_stdout w' = sys_stdout w /\ terminal w' = terminal w
  /\ buffers w' = buffers w /\ submitted w' = submitted w
  /\ stopped w' = stopped w.
Proof. unfold get_session. destruct (_pymol w); simpl; repeat split. Qed.

(** A second [get_session()] returns the instance the first one returned
    and changes nothing. *)
Lemma get_session_again (w : World P) :
  get_session (snd (get_session w)) = (fst (get_session w), snd (get_session w)).
Proof.
  unfold get_session at 1. rewrite get_session_holds. reflexivity.
Qed.

Lemma close_session_clears (w : World P) : _pymol (close_session w) = None.
Proof. unfold close_session. destruct (_pymol w) eqn:E; simpl; auto. Qed.

(** A second [close_session()] does nothing. *)
Lemma close_session_again (w : World P) :
  close_session (close_session w) = close_session w.
Proof.
  unfold close_session at 1. now rewrite close_session_clears.
Qed.

Lemma write_frame (t : str) (w : World P) :
  let w' := write t w in
  _pymol w' = _pymol w /\ sys_stdout w' = sys_stdout w
  /\ spawned w' = spawned w /\ live w' = live w
  /\ stopped w' = stopped w /\ submitted w' = submitted w.
Proof.
  unfold write. destruct (sys_stdout w) eqn:E; cbv zeta; simpl; rewrite ?E; repeat split.
Qed.

Lemma write_terminal (t : str) (w : World P) :
  sys_stdout w = Terminal -> terminal (write t w) = terminal w ++ t.
Proof. unfold write. now intros ->. Qed.

Lemma remove_id_single (n : nat) : remove_id n [n] = [].
Proof. simpl. now rewrite Nat.eqb_refl. Qed.

Lemma lifecycle_initial : lifecycle_ok (initial_world P).
Proof. now split. Qed.

Lemma lifecycle_get_session (w : World P) :
  lifecycle_ok w -> lifecycle_ok (snd (get_session w)).
Proof.
  unfold lifecycle_ok, held, get_session. intros [Hl Hs].
  destruct (_pymol w) as [i|] eqn:E; [simpl; now rewrite E|].
  rewrite Hl, app_nil_r in Hs. split.
  - cbn. now rewrite Hl.
  - change (stopped w ++ spawned w :: live w = seq 0 (S (spawned w))).
    now rewrite Hl, Hs, seq_S.
Qed.

Lemma lifecycle_close_session (w : World P) :
  lifecycle_ok w -> lifecycle_ok (close_session w).
Proof.
  unfold lifecycle_ok, held, close_session. intros [Hl Hs].
  destruct (_pymol w) as [i|] eqn:E; simpl; [|now rewrite E].
  rewrite Hl in *. rewrite remove_id_single. split; [reflexivity|].
  now rewrite app_nil_r.
Qed.

Lemma same_lifecycle_ok (w w' : World P) :
  same_lifecycle w w' -> lifecycle_ok w -> lifecycle_ok w'.
Proof.
  unfold same_lifecycle, lifecycle_ok. intros [Hh [Hl [Hs Hn]]] [H1 H2].
  rewrite Hh, Hl, Hs, Hn. now split.
Qed.

Lemma same_lifecycle_refl (w : World P) : same_lifecycle w w.
Proof. now repeat split. Qed.

Lemma same_lifecycle_trans (w1 w2 w3 : World P) :
  same_lifecycle w1 w2 -> same_lifecycle w2 w3 -> same_lifecycle w1 w3.
Proof.
  unfold same_lifecycle. intros [A1 [A2 [A3 A4]]] [B1 [B2 [B3 B4]]].
  repeat split; congruence.
Qed.

Lemma same_lifecycle_write (t : str) (w : World P) :
  same_lifecycle w (write t w).
Proof.
  unfold same_lifecycle, held, write. destruct (sys_stdout w); simpl; now repeat split.
Qed.

Lemma same_lifecycle_print (t : str) (w : World P) :
  same_lifecycle w (print t w).
Proof. apply same_lifecycle_write. Qed.

Lemma get_session_state_world (w : World P) :
  snd (get_session_state w) = snd (get_session w).
Proof. unfold get_session_state. now destruct (get_session w). Qed.

Lemma execute_command_lifecycle (cmd_string : str) (w : World P) :
  same_lifecycle (snd (get_session w)) (snd (execute_command cmd_string w))
  \/ snd (execute_command cmd_string w) = w.
Proof.
  unfold execute_command.
  destruct (nonempty (strip cmd_string)); simpl; [|now right].
  left. unfold new_StringIO, get_session, set_stdout, set_buffers; simpl.
  destruct (_pymol w) as [i|] eqn:E; simpl.
  - destruct (cmd_do P (strip cmd_string) (inst_engine i)) as [[e' printed] exn].
    unfold same_lifecycle, held, write, set_engine, log_submitted, set_pymol,
      set_stdout, set_buffers; simpl.
    destruct exn; simpl; rewrite E; now repeat split.
  - destruct (cmd_do P (strip cmd_string) (started P)) as [[e' printed] exn].
    unfold same_lifecycle, held, write, set_engine, log_submitted, set_pymol,
      set_stdout, set_buffers; simpl.
    destruct exn; simpl; now repeat split.
Qed.

Lemma lifecycle_execute_command (cmd_string : str) (w : World P) :
  lifecycle_ok w -> lifecycle_ok (snd (execute_command cmd_string w)).
Proof.
  intros H. destruct (execute_command_lifecycle cmd_string w) as [Hs | ->];
    [|assumption].
  eapply same_lifecycle_ok; [exact Hs|]. now apply lifecycle_get_session.
Qed.

Lemma per_residue_rmsd_lifecycle (mobile target : str) (w : World P) :
  same_lifecycle (snd (get_session w)) (snd (per_residue_rmsd B mobile target w)).
Proof.
  unfold per_residue_rmsd.
  pose proof (get_session_holds w) as Hh.
  destruct (get_session w) as [i w1]. simpl in *.
  destruct (rmsd_loop _ _ _ _ _ _) as [[|[k0 v0] more]|ex]; simpl;
    try apply same_lifecycle_refl.
  unfold same_lifecycle, held, set_engine, set_pymol; simpl.
  rewrite Hh. now repeat split.
Qed.

Lemma lifecycle_call (c : Call) (w : World P) :
  lifecycle_ok w -> lifecycle_ok (call B c w).
Proof.
  intros H. destruct c; simpl.
  - now apply lifecycle_get_session.
  - now apply lifecycle_close_session.
  - rewrite get_session_state_world. now apply lifecycle_get_session.
  - now apply lifecycle_execute_command.
  - eapply same_lifecycle_ok; [apply per_residue_rmsd_lifecycle|].
    now apply lifecycle_get_session.
Qed.

Lemma lifecycle_calls (cs : list Call) (w : World P) :
  lifecycle_ok w -> lifecycle_ok (calls B cs w).
Proof.
  revert w; induction cs as [|c cs IH]; intros w H; simpl; [assumption|].
  apply IH. now apply lifecycle_call.
Qed.

Lemma lifecycle_at_most_one (w : World P) :
  lifecycle_ok w -> length (live w) <= 1.
Proof.
  intros [Hl _]. rewrite Hl. unfold held. destruct (_pymol w); simpl; lia.
Qed.

End InterfaceProofs.

Section ReportProofs.

Variable P : PyMOL2.

Lemma chains_text_marker_if_blank (chains : list str) :
  chains_text chains = chains_field_marker_if_blank chains.
Proof.
  unfold chains_text.
  destruct chains as [|[|c u] [|b rest]]; reflexivity.
Qed.

Lemma session_report_structure (e : Engine P) :
  session_report P e = report_with P chains_field_marker_if_blank e.
Proof.
  unfold session_report, report_with, objects_section, selections_section.
  assert (Hobj : forall objs,
             map (object_line P e) objs
             = map (fun obj => lit "  - " ++ obj ++ lit ": "
                               ++ str_of_int (cmd_count_atoms P obj e)
                               ++ lit " atoms, chains: "
                               ++ chains_field_marker_if_blank
                                    (cmd_get_chains P obj e)) objs).
  { intros objs. apply map_ext. intros obj. unfold object_line.
    now rewrite chains_text_marker_if_blank. }
  destruct (cmd_get_object_list P e) as [|o objs];
    destruct (cmd_get_names P (lit "selections") e) as [|s sels];
    rewrite ?app_nil_r, ?Hobj; reflexivity.
Qed.

End ReportProofs.

(** C6 (amended).  The report [get_session_state] returns is the lines of
    the objects part followed by those of the selections part, joined by
    newlines, computed on the session [get_session()] hands out.  The
    objects part is the single line [No objects loaded.] when no object is
    loaded, otherwise a header and one line per object with its name, atom
    count and comma-joined chain identifiers, the marker [none] standing in
    whenever that joined text is empty (zero chains, or a single chain
    whose identifier is empty).  The selections part is a header and one
    line per selection when there is a selection and is absent otherwise. *)
Theorem get_session_state_report :
  forall (P : PyMOL2) (w : World P),
    fst (get_session_state w)
    = report_with P chains_field_marker_if_blank (current_engine w)
    /\ snd (get_session_state w) = snd (get_session w).
Proof.
  intros P w. unfold get_session_state.
  pose proof (get_session_engine P w) as He.
  destruct (get_session w) as [i w1]. simpl in *.
  rewrite He. split; [apply session_report_structure | reflexivity].
Qed.

(** C6 as the specification words it fails: an object whose one chain has
    the empty identifier is reported with the marker [none], not with its
    (empty) comma-joined identifiers. *)
Lemma get_session_state_blank_chain :
  fst (get_session_state (initial_world (Demo.pymol Demo.blank_chain_scene)))
  = lit "Loaded objects:" ++ newline ++ lit "  - X: 5 atoms, chains: none"
  /\ report_with (Demo.pymol Demo.blank_chain_scene) chains_field_spec
       Demo.blank_chain_scene
     = lit "Loaded objects:" ++ newline ++ lit "  - X: 5 atoms, chains: "
  /\ fst (get_session_state (initial_world (Demo.pymol Demo.blank_chain_scene)))
     <> report_with (Demo.pymol Demo.blank_chain_scene) chains_field_spec
          (current_engine (initial_world (Demo.pymol Demo.blank_chain_scene))).
Proof.
  split; [reflexivity|]. split; [reflexivity|].
  intros H. vm_compute in H. discriminate H.
Qed.

(** C7.  [execute_command] leaves [sys.stdout] bound to what it was
    bound to on entry, on every exit: the empty-command return, the normal
    return and the raising one.  Nothing the command printed reaches the
    terminal.  When [cmd.do] raises, the call raises that same exception;
    otherwise it returns the captured text, stripped. *)
Theorem execute_command_restores_stdout :
  forall (P : PyMOL2) (cmd_string : str) (w : World P),
    sys_stdout (snd (execute_command cmd_string w)) = sys_stdout w
    /\ terminal (snd (execute_command cmd_string w)) = terminal w
    /\ match strip cmd_string with
       | [] => execute_command cmd_string w = (Ok [], w)
       | _ :: _ =>
           let '(e', printed, exn) :=
             cmd_do P (strip cmd_string) (current_engine w) in
           fst (execute_command cmd_string w)
           = match exn with
             | Some e => Raise e
             | None => Ok (strip printed)
             end
           /\ current_engine (snd (execute_command cmd_string w)) = e'
           /\ submitted (snd (execute_command cmd_string w))
              = submitted w ++ [strip cmd_string]
       end.
Proof.
  intros P cmd_string w. unfold execute_command.
  destruct (strip cmd_string) as [|c0 rest] eqn:Es; cbn [nonempty negb].
  - repeat split; reflexivity.
  - unfold get_session, current_engine. world_simpl.
    destruct (_pymol w) as [i|] eqn:E; world_simpl.
    + destruct (cmd_do P (c0 :: rest) (inst_engine i)) as [[e' printed] exn].
      destruct exn; world_simpl; unfold getvalue; world_simpl;
        rewrite ?buf_write_fresh; repeat split; reflexivity.
    + destruct (cmd_do P (c0 :: rest) (started P)) as [[e' printed] exn].
      destruct exn; world_simpl; unfold getvalue; world_simpl;
        rewrite ?buf_write_fresh; repeat split; reflexivity.
Qed.

(* ------------------------------------------------------------------ *)
(** ** agent.py: proofs *)
(* ------------------------------------------------------------------ *)

Section AgentProofs.

Variable P : PyMOL2.
Variable B : Builtins.
Variable A : Anthropic.
Variable system_prompt : str.

Lemma current_engine_write (t : str) (w : World P) :
  current_engine (write t w) = current_engine w.
Proof.
  unfold current_engine. destruct (write_frame P t w) as [H _]. now rewrite H.
Qed.

Lemma print_frame (t : str) (w : World P) :
  current_engine (print t w) = current_engine w
  /\ submitted (print t w) = submitted w
  /\ sys_stdout (print t w) = sys_stdout w
  /\ _pymol (print t w) = _pymol w.
Proof.
  unfold print. rewrite current_engine_write.
  destruct (write_frame P (t ++ newline) w) as [H1 [H2 [_ [_ [_ H6]]]]].
  now repeat split.
Qed.

Lemma print_terminal (t : str) (w : World P) :
  sys_stdout w = Terminal -> terminal (print t w) = terminal w ++ t ++ newline.
Proof. intros H. unfold print. now apply write_terminal. Qed.

Lemma clean_extract_commands (text : str) :
  Forall clean (extract_commands text).
Proof.
  unfold extract_commands. apply Forall_forall. intros cmd Hin.
  apply in_map_iff in Hin as [m [<- Hm]].
  apply filter_In in Hm as [_ Hne]. split.
  - apply strip_idempotent.
  - now apply nonempty_iff.
Qed.

(** One clean command on a world: outcome, engine, log, output channel. *)
Lemma execute_command_clean (cmd : str) (w : World P) :
  clean cmd ->
  let '(e', printed, exn) := cmd_do P cmd (current_engine w) in
  fst (execute_command cmd w)
  = match exn with Some e => Raise e | None => Ok (strip printed) end
  /\ current_engine (snd (execute_command cmd w)) = e'
  /\ submitted (snd (execute_command cmd w)) = submitted w ++ [cmd]
  /\ sys_stdout (snd (execute_command cmd w)) = sys_stdout w
  /\ terminal (snd (execute_command cmd w)) = terminal w.
Proof.
  intros [Hs Hne]. unfold execute_command. rewrite Hs.
  destruct cmd as [|c0 r]; [congruence|]. cbn [nonempty negb].
  unfold get_session, current_engine. world_simpl.
  destruct (_pymol w) as [i|] eqn:E; world_simpl;
    match goal with
    | |- context [cmd_do P (c0 :: r) ?e] =>
        destruct (cmd_do P (c0 :: r) e) as [[e' printed] exn]
    end;
    destruct exn; world_simpl; unfold getvalue; world_simpl;
    rewrite ?buf_write_fresh; repeat split; reflexivity.
Qed.

Lemma executing_commands_frame (cmds : list str) :
  forall c : Config P A,
    conversation_history (executing_commands B cmds c) = conversation_history c
    /\ mode (executing_commands B cmds c) = mode c
    /\ client (executing_commands B cmds c) = client c
    /\ requests (executing_commands B cmds c) = requests c.
Proof.
  induction cmds as [|cmd rest IH]; intros c; [now repeat split|].
  cbn [executing_commands].
  destruct (execute_command cmd (world (say (lit "[CMD] " ++ cmd) c)))
    as [[[|o output]|e] w2];
    match goal with
    | |- context [executing_commands B rest ?c0] =>
        destruct (IH c0) as [H1 [H2 [H3 H4]]];
        rewrite H1, H2, H3, H4; now repeat split
    end.
Qed.

Lemma executing_commands_outcomes (cmds : list str) :
  forall c : Config P A,
    Forall clean cmds ->
    submitted (world (executing_commands B cmds c))
    = submitted (world c) ++ cmds
    /\ pending_outputs (executing_commands B cmds c)
       = pending_outputs c
         ++ flat_map (descriptors_of B)
              (engine_outcomes cmds (current_engine (world c)))
    /\ current_engine (world (executing_commands B cmds c))
       = engine_after cmds (current_engine (world c))
    /\ sys_stdout (world (executing_commands B cmds c))
       = sys_stdout (world c).
Proof.
  induction cmds as [|cmd rest IH]; intros c Hclean.
  - cbn. rewrite !app_nil_r. now repeat split.
  - inversion Hclean as [|? ? Hc Hrest]; subst.
    cbn [executing_commands engine_outcomes engine_after].
    destruct (print_frame (lit "[CMD] " ++ cmd) (world c)) as [Pe [Ps [Po _]]].
    pose proof (execute_command_clean cmd (print (lit "[CMD] " ++ cmd) (world c)) Hc)
      as Hx.
    rewrite Pe in Hx.
    destruct (cmd_do P cmd (current_engine (world c))) as [[e' printed] exn].
    destruct Hx as [Hf [He [Hsub [Hso _]]]].
    change (world (say (lit "[CMD] " ++ cmd) c))
      with (print (lit "[CMD] " ++ cmd) (world c)).
    destruct (execute_command cmd (print (lit "[CMD] " ++ cmd) (world c)))
      as [res w2].
    cbn [fst snd] in Hf, He, Hsub, Hso. subst res.
    rewrite Ps in Hsub. rewrite Po in Hso.
    destruct exn as [x|]; [|destruct (strip printed) as [|o output] eqn:Eo];
      match goal with
      | |- context [executing_commands B rest ?c0] =>
          destruct (IH c0 Hrest) as [I1 [I2 [I3 I4]]];
          rewrite I1, I2, I3, I4
      end;
      cbn [world pending_outputs say set_world set_pending flat_map descriptors_of];
      repeat match goal with
             | |- context [print ?t w2] =>
                 destruct (print_frame t w2) as [Q1 [Q2 [Q3 _]]];
                 rewrite ?Q1, ?Q2, ?Q3; clear Q1 Q2 Q3
             end;
      rewrite ?He, ?Hsub, ?Hso, <- ?app_assoc; now repeat split.
Qed.

Lemma build_context_fields (user_input : str) (c : Config P A) :
  conversation_history (build_context user_input c)
  = conversation_history c ++ [user_turn user_input c]
  /\ pending_outputs (build_context user_input c) = []
  /\ mode (build_context user_input c) = mode c
  /\ client (build_context user_input c) = client c
  /\ requests (build_context user_input c) = requests c
  /\ world (build_context user_input c) = snd (get_session (world c)).
Proof.
  unfold build_context, user_turn, get_session_state.
  pose proof (get_session_engine P (world c)) as He.
  destruct (get_session (world c)) as [i w1]. cbn [fst snd] in *.
  rewrite He. now repeat split.
Qed.

Lemma user_turn_prompted (user_input : str) (c : Config P A) :
  user_turn user_input (prompted c) = user_turn user_input c.
Proof.
  unfold user_turn, prompted. cbn [world mode pending_outputs set_world].
  now rewrite current_engine_write.
Qed.

Lemma str_eqb_eq (a b : str) : str_eqb a b = true <-> a = b.
Proof.
  revert b; induction a as [|x a IH]; intros [|y b]; simpl;
    try (split; congruence).
  rewrite andb_true_iff, N.eqb_eq, IH. split.
  - now intros [-> ->].
  - intros H. injection H as -> ->. now split.
Qed.

Lemma mode_word_not_quit_word (x : str) :
  str_in x mode_words = true -> str_in x quit_words = false.
Proof.
  unfold str_in, mode_words. cbn [existsb]. rewrite orb_false_r.
  intros H. apply orb_prop in H as [H | H]; apply str_eqb_eq in H; subst x;
    reflexivity.
Qed.

Lemma iteration_forwarded (text : str) (c : Config P A) :
  forwarded B text = true ->
  iteration B system_prompt (Line text) c
  = await_model B system_prompt (build_context (strip text) (prompted c)).
Proof.
  unfold forwarded, iteration. intros H.
  apply andb_prop in H as [H Hm]. apply andb_prop in H as [Hn Hq].
  rewrite Hn. cbn [negb].
  change [lit "quit"; lit "exit"; lit "bye"] with quit_words.
  change [lit "guided"; lit "expert"] with mode_words.
  apply negb_true_iff in Hq, Hm. now rewrite Hq, Hm.
Qed.

Lemma get_session_frame_engine (w : World P) :
  current_engine (snd (get_session w)) = current_engine w.
Proof.
  unfold get_session, current_engine.
  destruct (_pymol w) eqn:E; world_simpl; rewrite ?E; reflexivity.
Qed.

End AgentProofs.


Section TurnProofs.

Variable P : PyMOL2.
Variable B : Builtins.
Variable A : Anthropic.
Variable system_prompt : str.

(** Every call of the model is recorded with the history it was given. *)
Lemma await_model_requests (c : Config P A) :
  requests (snd (await_model B system_prompt c))
  = requests c ++ [conversation_history c].
Proof.
  unfold await_model.
  destruct (messages_create A MODEL MAX_TOKENS system_prompt
              (conversation_history c) (client c)) as [[reply|e|e] cl];
    cbn [snd].
  - destruct (extract_commands reply) as [|cmd cmds] eqn:Ec.
    + reflexivity.
    + cbn [say set_world requests].
      match goal with
      | |- context [executing_commands B ?l ?c0] =>
          destruct (executing_commands_frame P B A l c0) as [_ [_ [_ H]]];
          now rewrite H
      end.
  - reflexivity.
  - reflexivity.
Qed.

(** The mode label stands in the context of every user turn. *)
Lemma user_turn_mode_label (user_input : str) (c : Config P A) :
  exists pre post,
    content (user_turn user_input c)
    = pre ++ (lit "Current mode: " ++ mode c) ++ post.
Proof.
  unfold user_turn, context_parts. cbn [content].
  set (state := newline ++ newline ++ lit "Current PyMOL session state:"
                ++ newline ++ session_report P (current_engine (world c))).
  destruct (pending_outputs c) as [|p ps].
  - exists (user_input ++ state ++ newline), [].
    cbn [app join]. now rewrite app_nil_r, <- !app_assoc.
  - exists (user_input ++ state ++ newline),
      (newline ++ lit "Outputs from commands executed last turn:" ++ newline
       ++ join newline (p :: ps)).
    cbn [app join]. now rewrite <- !app_assoc.
Qed.

(** One outcome per command, in command order. *)
Lemma engine_outcomes_commands (cmds : list str) :
  forall e : Engine P, map fst (engine_outcomes cmds e) = cmds.
Proof.
  induction cmds as [|cmd rest IH]; intros e; [reflexivity|].
  cbn [engine_outcomes]. destruct (cmd_do P cmd e) as [[e' printed] exn].
  cbn [map fst]. now rewrite IH.
Qed.

(** The pending outputs, when there are any, end the context of the user
    turn. *)
Lemma user_turn_pending_outputs (user_input : str) (c : Config P A) :
  pending_outputs c <> [] ->
  exists pre,
    content (user_turn user_input c)
    = pre ++ lit "Outputs from commands executed last turn:" ++ newline
      ++ join newline (pending_outputs c).
Proof.
  intros Hne. unfold user_turn, context_parts. cbn [content].
  destruct (pending_outputs c) as [|p ps]; [congruence|].
  exists (user_input
          ++ (newline ++ newline ++ lit "Current PyMOL session state:"
              ++ newline ++ session_report P (current_engine (world c)))
          ++ newline ++ (lit "Current mode: " ++ mode c) ++ newline).
  cbn [app join]. now rewrite <- !app_assoc.
Qed.

(** The loop is left by [break] only on a quit word. *)
Lemma iteration_line_next (text : str) (c : Config P A) :
  fst (iteration B system_prompt (Line text) c) = Break
  <-> nonempty (strip text) && str_in (lower B (strip text)) quit_words = true.
Proof.
  unfold iteration, quit_words.
  destruct (nonempty (strip text)); cbn [negb andb fst]; [|easy].
  destruct (str_in (lower B (strip text)) [lit "quit"; lit "exit"; lit "bye"]);
    [easy|].
  destruct (str_in (lower B (strip text)) [lit "guided"; lit "expert"]);
    [easy|].
  unfold await_model.
  destruct (messages_create A MODEL MAX_TOKENS system_prompt _ _)
    as [[reply|e|e] cl]; cbn [fst]; easy.
Qed.

(** A forwarded line whose model call returns a reply: the command loop
    runs on a configuration with nothing pending, the engine and the log
    of submitted commands as they were when the line was read. *)
Lemma forwarded_reply_run (text reply : str) (c : Config P A) (cl : Client A) :
  forwarded B text = true ->
  messages_create A MODEL MAX_TOKENS system_prompt
    (conversation_history c ++ [user_turn (strip text) c]) (client c)
  = (Reply reply, cl) ->
  exists c3 : Config P A,
    pending_outputs c3 = []
    /\ submitted (world c3) = submitted (world c)
    /\ current_engine (world c3) = current_engine (world c)
    /\ iteration B system_prompt (Line text) c
       = (Continue,
          match extract_commands reply with
          | _ :: _ => say [] (executing_commands B (extract_commands reply) c3)
          | [] => executing_commands B (extract_commands reply) c3
          end).
Proof.
  intros Hf Hcall.
  rewrite (iteration_forwarded P B A system_prompt text c Hf).
  unfold await_model.
  destruct (build_context_fields P A (strip text) (prompted c))
    as [Hh [Hp [Hm [Hc [Hr Hw]]]]].
  rewrite user_turn_prompted in Hh.
  cbn [prompted set_world conversation_history client requests world] in Hh, Hc, Hr, Hw.
  rewrite Hh, Hc, Hcall.
  match goal with
  | |- context [executing_commands B (extract_commands reply) ?c0] =>
      exists c0
  end.
  destruct (print_frame P (newline ++ lit "Agent: " ++ reply ++ newline)
              (world (build_context (strip text) (prompted c))))
    as [He [Hs _]].
  destruct (get_session_frame P (write (lit "You: ") (world c)))
    as [_ [_ [_ [Hsub _]]]].
  destruct (write_frame P (lit "You: ") (world c)) as [_ [_ [_ [_ [_ Hsw]]]]].
  split; [|split; [|split]].
  - cbn [pending_outputs say set_world set_history]. exact Hp.
  - cbn [world say set_world set_history]. now rewrite Hs, Hw, Hsub.
  - cbn [world say set_world set_history].
    now rewrite He, Hw, get_session_frame_engine, current_engine_write.
  - reflexivity.
Qed.

End TurnProofs.

(** C5.  When the model call made for a forwarded line returns a reply,
    the reply is appended to [conversation_history] as an assistant turn,
    after the user turn, before any command is handed to the engine; the
    command loop then runs on that configuration and, whatever the
    commands do, leaves [conversation_history] (and the mode, the client
    and the record of model calls) as it found them: command outcomes reach
    only [pending_outputs] and the session. *)
Theorem reply_committed_before_commands :
  forall (P : PyMOL2) (B : Builtins) (A : Anthropic)
         (system_prompt text reply : str) (c : Config P A) (cl : Client A),
    forwarded B text = true ->
    messages_create A MODEL MAX_TOKENS system_prompt
      (conversation_history c ++ [user_turn (strip text) c]) (client c)
    = (Reply reply, cl) ->
    let r := iteration B system_prompt (Line text) c in
    let committed :=
      conversation_history c
      ++ [user_turn (strip text) c; {| role := assistant; content := reply |}] in
    (exists c3 : Config P A,
        conversation_history c3 = committed
        /\ submitted (world c3) = submitted (world c)
        /\ pending_outputs c3 = []
        /\ (snd r = executing_commands B (extract_commands reply) c3
            \/ snd r = say [] (executing_commands B (extract_commands reply) c3)))
    /\ conversation_history (snd r) = committed
    /\ (forall (cmds : list str) (c0 : Config P A),
           conversation_history (executing_commands B cmds c0)
           = conversation_history c0
           /\ mode (executing_commands B cmds c0) = mode c0
           /\ client (executing_commands B cmds c0) = client c0
           /\ requests (executing_commands B cmds c0) = requests c0).
Proof.
  intros P B A sp text reply c cl Hf Hcall r committed. subst r committed.
  rewrite (iteration_forwarded P B A sp text c Hf).
  unfold await_model.
  destruct (build_context_fields P A (strip text) (prompted c))
    as [Hh [Hp [Hm [Hc [Hr Hw]]]]].
  rewrite user_turn_prompted in Hh.
  cbn [prompted set_world conversation_history client requests world] in Hh, Hc, Hr, Hw.
  rewrite Hh, Hc, Hcall. cbn [fst snd].
  match goal with
  | |- context [executing_commands B (extract_commands reply) ?c0] =>
      set (c3 := c0)
  end.
  assert (Hc3 : conversation_history c3
                = conversation_history c
                  ++ [user_turn (strip text) c;
                      {| role := assistant; content := reply |}]).
  { subst c3. cbn [conversation_history say set_world set_history].
    now rewrite <- app_assoc. }
  split; [|split].
  - exists c3. split; [exact Hc3|]. split; [|split].
    + subst c3. cbn [world say set_world set_history].
      destruct (print_frame P (newline ++ lit "Agent: " ++ reply ++ newline)
                  (world (build_context (strip text) (prompted c))))
        as [_ [Hs _]].
      rewrite Hs, Hw.
      destruct (get_session_frame P (write (lit "You: ") (world c)))
        as [_ [_ [_ [Hsub _]]]].
      rewrite Hsub.
      now destruct (write_frame P (lit "You: ") (world c)) as [_ [_ [_ [_ [_ H]]]]].
    + subst c3. cbn [pending_outputs say set_world set_history]. exact Hp.
    + destruct (extract_commands reply); [now left | now right].
  - destruct (executing_commands_frame P B A (extract_commands reply) c3)
      as [H _].
    destruct (extract_commands reply);
      cbn [conversation_history say set_world]; rewrite H; exact Hc3.
  - intros cmds c0. apply executing_commands_frame.
Qed.

(** C3.  When the model call made for a forwarded line returns a reply,
    every command extracted from the reply is handed to the engine, one by
    one in the order of the reply, each exactly once and each on the state
    its predecessor left, whether that one raised or not.  A command that
    raised adds the text [  Command <repr of the command> failed: <the
    error>] to [pending_outputs], one that returned output adds
    [  <repr of the command> -> <the output>] (with the arrow U+2192), one
    that returned none adds nothing; these texts, in command order, are
    all that is pending afterwards.  The pass ends with [continue], and
    the loop goes on to the next line. *)
Theorem commands_all_attempted_in_order :
  forall (P : PyMOL2) (B : Builtins) (A : Anthropic)
         (system_prompt text reply : str) (c : Config P A) (cl : Client A),
    forwarded B text = true ->
    messages_create A MODEL MAX_TOKENS system_prompt
      (conversation_history c ++ [user_turn (strip text) c]) (client c)
    = (Reply reply, cl) ->
    let r := iteration B system_prompt (Line text) c in
    let cmds := extract_commands reply in
    let outcomes := engine_outcomes cmds (current_engine (world c)) in
    let descriptor (o : str * Result str) : list str :=
      match o with
      | (cmd, Raise (Exception error)) =>
          [lit "  Command " ++ repr B cmd ++ lit " failed: " ++ error]
      | (cmd, Ok []) => []
      | (cmd, Ok output) =>
          [lit "  " ++ repr B cmd ++ lit " " ++ [8594%N] ++ lit " " ++ output]
      end in
    fst r = Continue
    /\ (forall rest : list Input,
           loop B system_prompt (Line text :: rest) c
           = loop B system_prompt rest (snd r))
    /\ submitted (world (snd r)) = submitted (world c) ++ cmds
    /\ map fst outcomes = cmds
    /\ current_engine (world (snd r)) = engine_after cmds (current_engine (world c))
    /\ pending_outputs (snd r) = flat_map descriptor outcomes.
Proof.
  intros P B A sp text reply c cl Hf Hcall r cmds outcomes descriptor.
  destruct (forwarded_reply_run P B A sp text reply c cl Hf Hcall)
    as [c3 [Hp [Hs [He Hr]]]].
  pose proof (clean_extract_commands reply) as Hclean.
  subst r outcomes. fold cmds in Hr, Hclean.
  generalize dependent cmds. intros cmds Hr Hclean.
  destruct (executing_commands_outcomes P B A cmds c3 Hclean) as [H1 [H2 [H3 _]]].
  rewrite Hs in H1. rewrite Hp, He in H2. rewrite He in H3. cbn [app] in H2.
  assert (Hd : flat_map (descriptors_of B)
                 (engine_outcomes cmds (current_engine (world c)))
               = flat_map descriptor
                   (engine_outcomes cmds (current_engine (world c)))).
  { apply flat_map_ext. intros [cmd [[|o output]|[error]]]; reflexivity. }
  rewrite Hd in H2.
  split; [now rewrite Hr|].
  split; [intros rest; cbn [loop]; now rewrite Hr|].
  rewrite Hr. cbn [snd].
  split; [|split; [apply engine_outcomes_commands|split]].
  - destruct cmds as [|cmd0 more]; [exact H1|].
    cbn [world say set_world].
    destruct (print_frame P [] (world (executing_commands B (cmd0 :: more) c3)))
      as [_ [Hps _]].
    now rewrite Hps.
  - destruct cmds as [|cmd0 more]; [exact H3|].
    cbn [world say set_world].
    destruct (print_frame P [] (world (executing_commands B (cmd0 :: more) c3)))
      as [Hpe _].
    now rewrite Hpe.
  - destruct cmds; exact H2.
Qed.

(** C9.  A line that is a mode word (whatever its case) sets the mode to
    that word in lower case and ends the pass with [continue]: nothing is
    appended to [conversation_history], the pending outputs stay, the
    model is not called, no command is handed to the engine and the session
    handle is not touched.  The user turn built for the next forwarded line
    carries the label of the new mode, and that turn is what the model is
    called with. *)
Theorem mode_switch_only_changes_mode :
  forall (P : PyMOL2) (B : Builtins) (A : Anthropic)
         (system_prompt text : str) (c : Config P A),
    nonempty (strip text) = true ->
    str_in (lower B (strip text)) mode_words = true ->
    let r := iteration B system_prompt (Line text) c in
    fst r = Continue
    /\ mode (snd r) = lower B (strip text)
    /\ conversation_history (snd r) = conversation_history c
    /\ pending_outputs (snd r) = pending_outputs c
    /\ client (snd r) = client c
    /\ requests (snd r) = requests c
    /\ submitted (world (snd r)) = submitted (world c)
    /\ _pymol (world (snd r)) = _pymol (world c)
    /\ (forall next : str,
           forwarded B next = true ->
           requests (snd (iteration B system_prompt (Line next) (snd r)))
           = requests c
             ++ [conversation_history c ++ [user_turn (strip next) (snd r)]]
           /\ exists pre post,
               content (user_turn (strip next) (snd r))
               = pre ++ (lit "Current mode: " ++ lower B (strip text)) ++ post).
Proof.
  intros P B A sp text c Hn Hm r.
  assert (Hr : r = (Continue,
                    say (lit "Switched to " ++ lower B (strip text)
                         ++ lit " mode." ++ newline)
                        (set_mode (lower B (strip text)) (prompted c)))).
  { subst r. unfold iteration. rewrite Hn. cbn [negb].
    change [lit "quit"; lit "exit"; lit "bye"] with quit_words.
    change [lit "guided"; lit "expert"] with mode_words.
    now rewrite (mode_word_not_quit_word _ Hm), Hm. }
  rewrite Hr. cbn [fst snd].
  cbn [say set_world set_mode prompted mode conversation_history
       pending_outputs client requests world].
  destruct (print_frame P (lit "Switched to " ++ lower B (strip text)
                           ++ lit " mode." ++ newline)
              (write (lit "You: ") (world c))) as [_ [Hs [_ Hp]]].
  destruct (write_frame P (lit "You: ") (world c)) as [Hp' [_ [_ [_ [_ Hs']]]]].
  repeat split; try congruence.
  - rewrite (iteration_forwarded P B A sp next _ H).
    rewrite await_model_requests.
    destruct (build_context_fields P A (strip next)
                (prompted (say (lit "Switched to " ++ lower B (strip text)
                                ++ lit " mode." ++ newline)
                             (set_mode (lower B (strip text)) (prompted c)))))
      as [Hh [_ [_ [_ [Hq _]]]]].
    rewrite Hh, Hq, user_turn_prompted. reflexivity.
  - apply (user_turn_mode_label P A (strip next)
             (say (lit "Switched to " ++ lower B (strip text)
                   ++ lit " mode." ++ newline)
                (set_mode (lower B (strip text)) (prompted c)))).
Qed.

Section LifecycleProofs.

Variable P : PyMOL2.
Variable B : Builtins.
Variable A : Anthropic.
Variable system_prompt : str.

Lemma running_write (t : str) (w : World P) :
  running_ok w -> running_ok (write t w).
Proof.
  intros [Hl Hs]. split.
  - eapply same_lifecycle_ok; [apply same_lifecycle_write | exact Hl].
  - destruct (write_frame P t w) as [_ [_ [_ [_ [H _]]]]]. now rewrite H.
Qed.

Lemma running_print (t : str) (w : World P) :
  running_ok w -> running_ok (print t w).
Proof. apply running_write. Qed.

Lemma running_get_session (w : World P) :
  running_ok w -> running_ok (snd (get_session w)).
Proof.
  intros [Hl Hs]. split; [now apply lifecycle_get_session|].
  destruct (get_session_frame P w) as [_ [_ [_ [_ H]]]]. now rewrite H.
Qed.

Lemma running_execute_command (cmd : str) (w : World P) :
  running_ok w -> running_ok (snd (execute_command cmd w)).
Proof.
  intros H. destruct (execute_command_lifecycle P cmd w) as [Hs | ->];
    [|assumption].
  destruct (running_get_session w H) as [Hl Hst]. split.
  - eapply same_lifecycle_ok; [exact Hs | exact Hl].
  - destruct Hs as [_ [_ [Hs _]]]. now rewrite Hs.
Qed.

Lemma running_executing_commands (cmds : list str) :
  forall c : Config P A,
    running_ok (world c) -> running_ok (world (executing_commands B cmds c)).
Proof.
  induction cmds as [|cmd rest IH]; intros c H; [exact H|].
  cbn [executing_commands].
  pose proof (running_execute_command cmd _
                (running_print (lit "[CMD] " ++ cmd) _ H)) as Hx.
  change (world (say (lit "[CMD] " ++ cmd) c))
    with (print (lit "[CMD] " ++ cmd) (world c)).
  destruct (execute_command cmd (print (lit "[CMD] " ++ cmd) (world c)))
    as [[[|o output]|e] w2]; cbn [snd] in Hx; apply IH;
    cbn [world say set_world set_pending];
    try apply running_print; exact Hx.
Qed.

Lemma running_await_model (c : Config P A) :
  running_ok (world c) -> running_ok (world (snd (await_model B system_prompt c))).
Proof.
  intros H. unfold await_model.
  destruct (messages_create A MODEL MAX_TOKENS system_prompt
              (conversation_history c) (client c)) as [[reply|e|e] cl];
    cbn [snd].
  - match goal with
    | |- context [executing_commands B (extract_commands reply) ?c0] =>
        assert (Hc : running_ok (world (executing_commands B (extract_commands reply) c0)))
    end.
    { apply running_executing_commands.
      cbn [world say set_world set_history]. now apply running_print. }
    destruct (extract_commands reply); [exact Hc|].
    cbn [world say set_world]. now apply running_print.
  - cbn [world say set_world set_history]. now apply running_print.
  - exact H.
Qed.

Lemma running_iteration (ev : Input) (c : Config P A) :
  running_ok (world c) ->
  running_ok (world (snd (iteration B system_prompt ev c))).
Proof.
  intros H. unfold iteration.
  assert (Hp : running_ok (write (lit "You: ") (world c)))
    by now apply running_write.
  destruct ev as [text|].
  - destruct (nonempty (strip text)); cbn [negb]; [|exact Hp].
    destruct (str_in _ _); [cbn [snd world say set_world]; now apply running_print|].
    destruct (str_in _ _).
    + cbn [snd world say set_world set_mode]. now apply running_print.
    + apply running_await_model.
      destruct (build_context_fields P A (strip text) (prompted c))
        as [_ [_ [_ [_ [_ Hw]]]]].
      rewrite Hw. now apply running_get_session.
  - cbn [snd world say set_world]. now apply running_print.
Qed.

Lemma running_loop (events : list Input) :
  forall c : Config P A,
    running_ok (world c) ->
    running_ok (world (snd (loop B system_prompt events c))).
Proof.
  induction events as [|ev rest IH]; intros c H; [exact H|].
  cbn [loop]. pose proof (running_iteration ev c H) as Hi.
  destruct (iteration B system_prompt ev c) as [[| |e] c']; cbn [snd] in *.
  - now apply IH.
  - exact Hi.
  - exact Hi.
Qed.

Lemma running_startup (start_mode : str) :
  running_ok (world (startup A start_mode (initial_world P))).
Proof.
  unfold startup. cbn [world say set_world].
  do 2 apply running_print. split; [apply lifecycle_initial | reflexivity].
Qed.

Lemma running_spawned (w : World P) : running_ok w -> spawned w <= 1.
Proof.
  intros [Hok Hs]. pose proof (lifecycle_at_most_one P w Hok) as Hone.
  destruct Hok as [Hl Hseq]. rewrite Hs in Hseq. cbn [app] in Hseq.
  assert (length (live w) = spawned w) by now rewrite Hseq, length_seq.
  lia.
Qed.

Lemma closing_clears (w : World P) :
  running_ok w ->
  _pymol (close_session w) = None
  /\ live (close_session w) = []
  /\ stopped (close_session w) = seq 0 (spawned (close_session w))
  /\ spawned (close_session w) = spawned w.
Proof.
  intros [[Hl Hseq] Hs]. unfold close_session, held in *.
  destruct (_pymol w) as [i|] eqn:E; world_simpl.
  - rewrite Hl in *. rewrite remove_id_single, Hs in *. now repeat split.
  - rewrite E, Hl, Hs in *. now repeat split.
Qed.

(** While the loop runs nothing has been stopped, so what [close_session()]
    stops is what was live. *)
Lemma closing_stops_live (w : World P) :
  running_ok w -> stopped (close_session w) = live w.
Proof.
  intros [[Hl Hseq] Hs]. unfold close_session, held in *.
  destruct (_pymol w) as [i|] eqn:E; world_simpl.
  - now rewrite Hs, Hl.
  - now rewrite Hs, Hl.
Qed.

(** The pass ends with [break] exactly on the inputs that end the
    conversation. *)
Lemma iteration_leaves (ev : Input) (c : Config P A) :
  fst (iteration B system_prompt ev c) = Break <-> leaves B ev = true.
Proof.
  destruct ev as [text|]; [apply iteration_line_next | now split].
Qed.

Lemma loop_app (events more : list Input) :
  forall c : Config P A,
    loop B system_prompt (events ++ more) c
    = match loop B system_prompt events c with
      | (Continue, c') => loop B system_prompt more c'
      | (Break, c') => (Break, c')
      | (Propagate e, c') => (Propagate e, c')
      end.
Proof.
  induction events as [|ev rest IH]; intros c; [reflexivity|].
  cbn [app loop]. destruct (iteration B system_prompt ev c) as [[| |e] c'];
    [apply IH | reflexivity | reflexivity].
Qed.

(** The loop is left by [break] only at an input that ends the
    conversation, read while the loop was still running. *)
Lemma loop_break (events : list Input) :
  forall c : Config P A,
    fst (loop B system_prompt events c) = Break ->
    exists pre ev post,
      events = pre ++ ev :: post /\ leaves B ev = true
      /\ fst (loop B system_prompt pre c) = Continue.
Proof.
  induction events as [|ev rest IH]; intros c H; [discriminate|].
  cbn [loop] in H.
  destruct (iteration B system_prompt ev c) as [[| |e] c'] eqn:Ei.
  - destruct (IH c' H) as [pre [ev' [post [-> [Hl Hc]]]]].
    exists (ev :: pre), ev', post. cbn [app loop]. rewrite Ei. now repeat split.
  - exists [], ev, rest. repeat split.
    apply (iteration_leaves ev c). now rewrite Ei.
  - discriminate.
Qed.

(** Reading an input that ends the conversation while the loop runs
    leaves the loop by [break]; what follows is not read. *)
Lemma loop_leaves (pre : list Input) (ev : Input) (post : list Input)
      (c : Config P A) :
  leaves B ev = true ->
  loop B system_prompt (pre ++ ev :: post) c = loop B system_prompt (pre ++ [ev]) c
  /\ (fst (loop B system_prompt pre c) = Continue ->
      fst (loop B system_prompt (pre ++ [ev]) c) = Break).
Proof.
  intros Hl. rewrite !loop_app.
  destruct (loop B system_prompt pre c) as [[| |e] c']; [|now split..].
  apply (iteration_leaves ev c') in Hl. cbn [loop].
  destruct (iteration B system_prompt ev c') as [[| |e] c'']; cbn [fst] in Hl;
    try discriminate.
  now split.
Qed.

End LifecycleProofs.

(** C8.  Starting from a process in which no session exists, whatever
    calls are made on the wrapper and in whatever order, at most one
    instance is started and not stopped, it is the one [_pymol] holds, and
    every other instance constructed so far has been stopped, once.
    [get_session()] on the initial state constructs the first instance; a
    [get_session()] that follows another returns the same instance and
    constructs nothing.  [close_session()] clears the handle, so a second
    one does nothing.  A run of the agent constructs at most one instance
    and stops none while the loop runs.  When the agent, waiting for
    input, reads a quit word or meets the end of the input or an
    interrupt, the run is closed: the instance that was live is stopped,
    once, the handle is cleared and nothing is live; and a run is closed
    only in that state.  [close_session()] is reached by leaving the loop
    with [break] only: a run that an exception ended has stopped nothing. *)
Theorem single_session_lifecycle :
  forall (P : PyMOL2) (B : Builtins),
    (forall cs : list Call,
        let w := calls B cs (initial_world P) in
        length (live w) <= 1
        /\ live w = held w
        /\ stopped w ++ live w = seq 0 (spawned w)
        /\ NoDup (stopped w))
    /\ get_session (initial_world P)
       = ({| inst_id := 0; inst_engine := started P |},
          snd (get_session (initial_world P)))
    /\ (forall w : World P,
           get_session (snd (get_session w))
           = (fst (get_session w), snd (get_session w)))
    /\ (forall w : World P,
           _pymol (close_session w) = None
           /\ close_session (close_session w) = close_session w)
    /\ (forall (A : Anthropic) (system_prompt start_mode : str)
               (events : list Input),
           let r := run_agent B A system_prompt start_mode events (initial_world P) in
           let w := world (snd r) in
           spawned w <= 1
           /\ length (live w) <= 1
           /\ match fst r with
              | Closed => _pymol w = None /\ live w = []
                          /\ stopped w = seq 0 (spawned w)
              | AwaitingInput => stopped w = []
              | Raised _ => stopped w = []
              end)
    /\ (forall (A : Anthropic) (system_prompt start_mode : str)
               (events : list Input) (ev : Input),
           let before := run_agent B A system_prompt start_mode events
                           (initial_world P) in
           let r := run_agent B A system_prompt start_mode (events ++ [ev])
                      (initial_world P) in
           fst before = AwaitingInput ->
           leaves B ev = true ->
           fst r = Closed
           /\ _pymol (world (snd r)) = None
           /\ live (world (snd r)) = []
           /\ stopped (world (snd r)) = live (world (snd before))
           /\ spawned (world (snd r)) = spawned (world (snd before))
           /\ length (stopped (world (snd r))) <= 1).
Proof.
  intros P B. split; [|split; [|split; [|split; [|split]]]].
  - intros cs w.
    pose proof (lifecycle_calls P B cs _ (lifecycle_initial P)) as Hl.
    fold w in Hl. destruct Hl as [Hh Hseq]. repeat split; try assumption.
    + rewrite Hh. unfold held. destruct (_pymol w); simpl; lia.
    + pose proof (seq_NoDup (spawned w) 0) as Hn. rewrite <- Hseq in Hn.
      now apply NoDup_app_remove_r in Hn.
  - reflexivity.
  - apply get_session_again.
  - intros w. split; [apply close_session_clears | apply close_session_again].
  - intros A sp start_mode events r w. subst w r. unfold run_agent.
    pose proof (running_loop P B A sp events _ (running_startup P A start_mode))
      as Hrun.
    destruct (loop B sp events (startup A start_mode (initial_world P)))
      as [[| |e] c]; cbn [fst snd world set_world] in *.
    + split; [now apply running_spawned|]. split.
      * apply lifecycle_at_most_one. apply Hrun.
      * apply Hrun.
    + destruct (closing_clears P (world c) Hrun) as [H1 [H2 [H3 H4]]].
      rewrite H4, H2. split; [now apply running_spawned|]. split; [simpl; lia|].
      rewrite H4 in H3. now repeat split.
    + split; [now apply running_spawned|]. split.
      * apply lifecycle_at_most_one. apply Hrun.
      * apply Hrun.
  - intros A sp start_mode events ev before r Hb Hl. subst before r.
    unfold run_agent in *.
    pose proof (running_loop P B A sp events _ (running_startup P A start_mode))
      as Hrun.
    destruct (loop_leaves P B A sp events ev [] (startup A start_mode (initial_world P)) Hl)
      as [_ Hbr].
    rewrite loop_app in *.
    destruct (loop B sp events (startup A start_mode (initial_world P)))
      as [[| |e] c]; cbn [fst snd] in *; try discriminate.
    specialize (Hbr eq_refl).
    pose proof (running_iteration P B A sp ev c Hrun) as Hi.
    cbn [loop] in *.
    destruct (iteration B sp ev c) as [[| |e] c'] eqn:Ei; cbn [fst snd] in *;
      try discriminate.
    cbn [world set_world].
    destruct (closing_clears P (world c') Hi) as [H1 [H2 [H3 H4]]].
    pose proof (closing_stops_live P (world c') Hi) as H5.
    assert (Hsame : live (world c') = live (world c)
                    /\ spawned (world c') = spawned (world c)).
    { apply (f_equal snd) in Ei. cbn [snd] in Ei. subst c'.
      unfold iteration. destruct ev as [text|]; cbn [leaves] in Hl.
      - apply andb_prop in Hl as [Hn Hq]. rewrite Hn. cbn [negb].
        change [lit "quit"; lit "exit"; lit "bye"] with quit_words. rewrite Hq.
        cbn [snd world say set_world prompted]. unfold print.
        destruct (write_frame P (lit "Goodbye." ++ newline)
                    (write (lit "You: ") (world c))) as [_ [_ [Ha [Hb' _]]]].
        destruct (write_frame P (lit "You: ") (world c)) as [_ [_ [Hc [Hd _]]]].
        split; congruence.
      - cbn [snd world say set_world prompted]. unfold print.
        destruct (write_frame P ((newline ++ lit "Exiting.") ++ newline)
                    (write (lit "You: ") (world c))) as [_ [_ [Ha [Hb' _]]]].
        destruct (write_frame P (lit "You: ") (world c)) as [_ [_ [Hc [Hd _]]]].
        split; congruence. }
    destruct Hsame as [Hlive Hsp].
    repeat split; try assumption; try congruence.
    rewrite H5, Hlive. apply lifecycle_at_most_one. apply Hrun.
Qed.

Section RmsdProofs.

Variable P : PyMOL2.
Variable B : Builtins.

Lemma dict_get_set (k n : Z) (v : float) (d : list (Z * float)) :
  dict_get Z.eqb k (dict_set Z.eqb n v d)
  = if Z.eqb k n then Some v else dict_get Z.eqb k d.
Proof.
  induction d as [|[k' v'] d IH]; cbn [dict_set dict_get]; [reflexivity|].
  destruct (Z.eqb_spec n k') as [->|Hn]; cbn [dict_get].
  - now destruct (Z.eqb k k').
  - rewrite IH. destruct (Z.eqb_spec k k') as [->|Hk]; [|reflexivity].
    destruct (Z.eqb_spec k' n) as [->|_]; [congruence | reflexivity].
Qed.

Lemma dict_set_values (n : Z) (v : float) (d : list (Z * float)) :
  ge0 v = true ->
  Forall (fun kv => ge0 (snd kv) = true) d ->
  Forall (fun kv => ge0 (snd kv) = true) (dict_set Z.eqb n v d).
Proof.
  intros Hv. induction 1 as [|[k' v'] d Hk Hd IH]; cbn [dict_set].
  - now repeat constructor.
  - destruct (Z.eqb n k'); constructor; assumption.
Qed.

Lemma rmsd_loop_spec (mobile target : str) (e : Engine P)
      (items : list (str * Atom)) :
  forall d0 d,
    rmsd_loop B mobile target e items d0 = Ok d ->
    Forall (fun kv => ge0 (snd kv) = true) d0 ->
    Forall (fun kv => ge0 (snd kv) = true) d
    /\ forall k, dict_get Z.eqb k d
                 = expected_entry B mobile target e items k (dict_get Z.eqb k d0).
Proof.
  induction items as [|[key a] rest IH]; intros d0 d Hrun Hd0.
  - cbn in Hrun. injection Hrun as <-. now split.
  - cbn [rmsd_loop expected_entry] in *.
    destruct (ge0 (residue_value mobile target e a)) eqn:Hge; cbn [andb].
    + destruct a as [[[m ch] r] rn]. unfold py_int, has_key in *.
      cbn [resi_of] in *.
      destruct (int_of_str B r) as [n|]; [|discriminate].
      destruct (IH _ _ Hrun (dict_set_values n _ d0 Hge Hd0)) as [Hall Hget].
      split; [exact Hall|]. intros k. now rewrite Hget, dict_get_set.
    + now apply IH.
Qed.

(** When [a] is the only residue numbered [k], the entry under [k] is
    [a]'s value if that is at least zero and is untouched otherwise. *)
Lemma expected_entry_only (mobile target : str) (e : Engine P)
      (k : Z) (a : Atom) (items : list (str * Atom)) :
  (forall key' a', In (key', a') items -> has_key B k a' = true -> a' = a) ->
  forall acc,
    expected_entry B mobile target e items k acc
    = if existsb (fun it => has_key B k (snd it)) items
         && ge0 (residue_value mobile target e a)
      then Some (residue_value mobile target e a) else acc.
Proof.
  induction items as [|[key' a'] rest IH]; intros Honly acc; [reflexivity|].
  cbn [expected_entry existsb snd].
  rewrite IH by (intros ? ? ? ?; eapply Honly; [right|]; eassumption).
  destruct (has_key B k a') eqn:Hk.
  - rewrite (Honly key' a' (or_introl eq_refl) Hk).
    destruct (ge0 (residue_value mobile target e a));
      destruct (existsb _ rest); reflexivity.
  - now rewrite andb_false_r.
Qed.

Lemma existsb_has_key (k : Z) (key : str) (a : Atom) (items : list (str * Atom)) :
  In (key, a) items -> has_key B k a = true ->
  existsb (fun it => has_key B k (snd it)) items = true.
Proof.
  intros Hin Hk. apply existsb_exists. now exists (key, a).
Qed.

End RmsdProofs.

(** C10.  In the dict [per_residue_rmsd] returns every value is at least
    zero.  The entry under a key is the value of the last residue with
    that number whose value passed the [>= 0] test; in particular, for a
    residue that alone has its number, the dict holds [0.0] when
    [rms_cur] raised for it (the exception is taken as [0.0], which passes
    the test, like a perfect match), holds [rms_cur]'s value when that is
    at least zero, and holds no entry when it is negative. *)
Theorem per_residue_rmsd_values :
  forall (P : PyMOL2) (B : Builtins) (mobile target : str)
         (w w' : World P) (d : list (Z * float)),
    per_residue_rmsd B mobile target w = (Ok d, w') ->
    let e := current_engine w in
    let residues :=
      collect_residues (cmd_iterate P (mobile ++ lit " and name CA") e) in
    (forall k v, In (k, v) d -> ge0 v = true)
    /\ (forall k, dict_get Z.eqb k d
                  = expected_entry B mobile target e residues k None)
    /\ ge0 0%float = true
    /\ (forall key a k,
           In (key, a) residues ->
           int_of_str B (resi_of a) = Some k ->
           (forall key' a', In (key', a') residues ->
                            has_key B k a' = true -> a' = a) ->
           match residue_rms mobile target e a with
           | Raise _ => dict_get Z.eqb k d = Some 0%float
           | Ok val => dict_get Z.eqb k d = if ge0 val then Some val else None
           end).
Proof.
  intros P B mobile target w w' d Hrun e residues.
  assert (Hloop : rmsd_loop B mobile target e residues [] = Ok d).
  { unfold per_residue_rmsd in Hrun. subst e residues.
    rewrite <- (get_session_engine P w).
    destruct (get_session w) as [i w1]. cbn [fst].
    destruct (rmsd_loop B mobile target (inst_engine i) _ [])
      as [[|[k0 v0] more]|ex]; congruence. }
  destruct (rmsd_loop_spec P B mobile target e residues [] d Hloop (Forall_nil _))
    as [Hall Hget].
  split; [|split; [|split]].
  - intros k v Hin. rewrite Forall_forall in Hall. exact (Hall (k, v) Hin).
  - exact Hget.
  - reflexivity.
  - intros key a k Hin Hk Honly.
    assert (Hkey : has_key B k a = true).
    { unfold has_key. rewrite Hk. apply Z.eqb_refl. }
    rewrite Hget, (expected_entry_only P B mobile target e k a residues Honly).
    rewrite (existsb_has_key B k key a residues Hin Hkey). cbn [andb].
    unfold residue_value.
    destruct (residue_rms mobile target e a) as [val|ex]; reflexivity.
Qed.

(* ------------------------------------------------------------------ *)
(** ** The theorems at concrete inputs *)
(* ------------------------------------------------------------------ *)

(** The examples of the specification, with the tag the code uses. *)
Example extract_two_blocks :
  extract_commands (lit "<pymol>a</pymol>text<pymol>  b  </pymol>")
  = [lit "a"; lit "b"].
Proof. reflexivity. Qed.

Example extract_unclosed : extract_commands (lit "<pymol>a") = [].
Proof. reflexivity. Qed.

Example extract_empty_block : extract_commands (lit "<pymol></pymol>") = [].
Proof. reflexivity. Qed.

Example extract_multiline :
  extract_commands (lit "<pymol>" ++ newline ++ lit "load 1abc" ++ newline
                    ++ lit "zoom" ++ newline ++ lit "</pymol>")
  = [lit "load 1abc" ++ newline ++ lit "zoom"].
Proof. reflexivity. Qed.

(** Three commands, the second raising: all three reach the engine, and
    the pending outputs hold a success, a failure and a success
    descriptor. *)
Example partial_failure :
  let c := executing_commands Demo.builtins
             (extract_commands
                (lit "<pymol>zoom</pymol><pymol>fail</pymol><pymol>orient</pymol>"))
             (Demo.fresh Demo.offline) in
  submitted (world c) = [lit "zoom"; lit "fail"; lit "orient"]
  /\ pending_outputs c
     = [lit "  'zoom' " ++ arrow ++ lit " done zoom";
        lit "  Command 'fail' failed: boom";
        lit "  'orient' " ++ arrow ++ lit " done orient"].
Proof. vm_compute. split; reflexivity. Qed.



(** C3 at a concrete input: the reply holds three commands, the second
    of which raises. *)
Lemma commands_all_attempted_in_order_witness :
  let reply := lit "<pymol>zoom</pymol><pymol>fail</pymol><pymol>orient</pymol>" in
  let A := Demo.scripted [Reply reply] in
  let r := iteration Demo.builtins Demo.system_prompt (Line (lit "hello"))
             (Demo.fresh A) in
  fst r = Continue
  /\ submitted (world (snd r)) = [lit "zoom"; lit "fail"; lit "orient"]
  /\ pending_outputs (snd r)
     = [lit "  'zoom' " ++ arrow ++ lit " done zoom";
        lit "  Command 'fail' failed: boom";
        lit "  'orient' " ++ arrow ++ lit " done orient"].
Proof.
  intros reply A r.
  destruct (commands_all_attempted_in_order Demo.bare Demo.builtins A
              Demo.system_prompt (lit "hello") reply (Demo.fresh A) []
              eq_refl eq_refl) as [H1 [_ [H2 [_ [_ H3]]]]].
  split; [exact H1|]. split; [exact H2 | exact H3].
Defined.

(** C8 at a concrete input: one line reaches the model, then the user
    types the quit word in capitals with blanks around it. *)
Lemma single_session_lifecycle_witness :
  let A := Demo.scripted [Reply (lit "<pymol>zoom</pymol>")] in
  let r := run_agent Demo.builtins A Demo.system_prompt (lit "guided")
             ([Line (lit "hi")] ++ [Line (lit " QUIT ")])
             (initial_world Demo.bare) in
  fst r = Closed
  /\ _pymol (world (snd r)) = None
  /\ stopped (world (snd r)) = [0].
Proof.
  intros A r.
  destruct (single_session_lifecycle Demo.bare Demo.builtins)
    as [_ [_ [_ [_ [_ H]]]]].
  destruct (H A Demo.system_prompt (lit "guided") [Line (lit "hi")]
              (Line (lit " QUIT ")) eq_refl eq_refl) as [H1 [H2 [_ [H4 _]]]].
  split; [exact H1|]. split; [exact H2 | exact H4].
Defined.

(** C5 at a concrete input: the reply holds a command that raises. *)
Lemma reply_committed_before_commands_witness :
  let A := Demo.scripted [Reply (lit "<pymol>fail</pymol>")] in
  let r := iteration Demo.builtins Demo.system_prompt (Line (lit "hello"))
             (Demo.fresh A) in
  conversation_history (snd r)
  = [user_turn (lit "hello") (Demo.fresh A);
     {| role := assistant; content := lit "<pymol>fail</pymol>" |}].
Proof.
  intros A r.
  destruct (reply_committed_before_commands Demo.bare Demo.builtins A
              Demo.system_prompt (lit "hello") (lit "<pymol>fail</pymol>")
              (Demo.fresh A) [] eq_refl eq_refl) as [_ [H _]].
  exact H.
Defined.

(** C9 at a concrete input: the user types the mode word in capitals,
    with blanks around it. *)
Lemma mode_switch_only_changes_mode_witness :
  let r := iteration Demo.builtins Demo.system_prompt (Line (lit " EXPERT "))
             (Demo.fresh Demo.offline) in
  fst r = Continue /\ mode (snd r) = lit "expert"
  /\ conversation_history (snd r) = [].
Proof.
  intros r.
  destruct (mode_switch_only_changes_mode Demo.bare Demo.builtins Demo.offline
              Demo.system_prompt (lit " EXPERT ") (Demo.fresh Demo.offline)
              eq_refl eq_refl) as [H1 [H2 [H3 _]]].
  split; [exact H1 | split; [exact H2 | exact H3]].
Defined.

(** C10 at a concrete input: the raising residue is in the dict with
    0.0, the negative one is not. *)
Lemma per_residue_rmsd_values_witness :
  let P := Demo.pymol Demo.rmsd_scene in
  let d := [(1%Z, 1.5%float); (3%Z, 0%float)] in
  fst (per_residue_rmsd Demo.builtins (lit "m") (lit "t") (initial_world P)) = Ok d
  /\ (forall k v, In (k, v) d -> ge0 v = true)
  /\ dict_get Z.eqb 2%Z d = None
  /\ dict_get Z.eqb 3%Z d = Some 0%float.
Proof.
  intros P d.
  destruct (per_residue_rmsd_values P Demo.builtins (lit "m") (lit "t")
              (initial_world P)
              (snd (per_residue_rmsd Demo.builtins (lit "m") (lit "t")
                      (initial_world P)))
              d eq_refl) as [H1 _].
  split; [reflexivity|]. split; [exact H1|]. split; reflexivity.
Defined.

(** C1 at a failing input.  The first reply's command puts a descriptor
    into [pending_outputs].  The model call of the next forwarded line
    fails: the user turn that carried the descriptor is rolled back, and
    the pending outputs were already cleared when that turn was built.
    After a third line the loop still awaits input, nothing is pending,
    and no message of [conversation_history] holds the descriptor, though
    the failed request did. *)
Lemma pending_outputs_lost_on_api_error :
  let run := fun events =>
    loop Demo.builtins Demo.system_prompt events (Demo.fresh Demo.flaky) in
  let hi := Line (lit "hi") in
  let again := Line (lit "again") in
  let d := success_descriptor Demo.builtins (lit "zoom") (lit "done zoom") in
  pending_outputs (snd (run [hi])) = [d]
  /\ fst (run [hi; again; again]) = Continue
  /\ pending_outputs (snd (run [hi; again; again])) = []
  /\ map role (conversation_history (snd (run [hi; again; again])))
     = [user; assistant; user; assistant]
  /\ forallb (fun m => negb (contains d (content m)))
       (conversation_history (snd (run [hi; again; again]))) = true
  /\ existsb (fun m => contains d (content m))
       (nth 1 (requests (snd (run [hi; again; again]))) []) = true.
Proof. vm_compute. repeat split; reflexivity. Qed.

(* ------------------------------------------------------------------ *)
(** ** Further properties of command extraction *)
(* ------------------------------------------------------------------ *)

Section ExtractMore.

Local Opaque OPEN CLOSE.

Lemma contains_occurs (needle hay : str) :
  contains needle hay = true <-> exists a b, hay = a ++ needle ++ b.
Proof.
  induction hay as [|x hay IH]; cbn [contains].
  - rewrite orb_false_r. split.
    + intros H. exists [], (skipn (length needle) []).
      now apply starts_with_inv in H.
    + intros [a [b H]]. destruct a; [|discriminate]. cbn [app] in H.
      rewrite H. apply starts_with_app.
  - rewrite orb_true_iff, IH. split.
    + intros [H | [a [b H]]].
      * exists [], (skipn (length needle) (x :: hay)).
        now apply starts_with_inv in H.
      * exists (x :: a), b. cbn [app]. now f_equal.
    + intros [[|y a] [b H]]; cbn [app] in H.
      * left. rewrite H. apply starts_with_app.
      * right. injection H as _ H. now exists a, b.
Qed.

Lemma contains_false (needle hay : str) :
  contains needle hay = false -> forall a b, hay <> a ++ needle ++ b.
Proof.
  intros H a b Heq. assert (contains needle hay = true) as Ht
      by (apply contains_occurs; now exists a, b).
  congruence.
Qed.

Lemma findall_Blocks (text : str) : Blocks text (findall text).
Proof. apply findall_fuel_Blocks. apply Nat.le_refl. Qed.

(** No body holds a close delimiter; with their delimiters the bodies fit
    into the text. *)
Lemma Blocks_bodies (text : str) (bodies : list str) :
  Blocks text bodies ->
  Forall (fun b => forall a c, b <> a ++ CLOSE ++ c) bodies
  /\ list_sum (map (fun b => length OPEN + length b + length CLOSE) bodies)
     <= length text.
Proof.
  induction 1 as [text Hno | pre body rest bodies Hfirst Hnear Hrest [IH1 IH2]].
  - split; [constructor | simpl; lia].
  - split.
    + constructor; [|exact IH1]. intros a c Hb.
      specialize (Hnear a (c ++ CLOSE ++ rest)).
      rewrite Hb, <- !app_assoc in Hnear. specialize (Hnear eq_refl).
      rewrite !length_app, length_CLOSE in Hnear. lia.
    + unfold list_sum in *. cbn [map fold_right]. rewrite !length_app. lia.
Qed.

Lemma strip_inside (s : str) : exists l r, s = l ++ strip s ++ r.
Proof.
  destruct (strip_Trimmed s) as [l [r [H _]]]. now exists l, r.
Qed.

Lemma strip_length (s : str) : length (strip s) <= length s.
Proof.
  destruct (strip_inside s) as [l [r H]]. rewrite H at 2.
  rewrite !length_app. lia.
Qed.

Lemma extract_commands_sum (bodies : list str) :
  list_sum (map (fun c => length OPEN + length c + length CLOSE)
              (map strip (filter (fun m => nonempty (strip m)) bodies)))
  <= list_sum (map (fun b => length OPEN + length b + length CLOSE) bodies).
Proof.
  induction bodies as [|b bs IH]; [simpl; lia|].
  unfold list_sum in *.
  cbn [filter]. destruct (nonempty (strip b)); cbn [map fold_right].
  - pose proof (strip_length b). lia.
  - lia.
Qed.

End ExtractMore.

(** X1.  Every command [extract_commands] returns is ready to run as it
    stands: it is not empty, trimming it again changes nothing, and it
    neither starts nor ends with a whitespace character. *)
Theorem extract_commands_trimmed :
  forall text : str,
    Forall (fun cmd => cmd <> []
                       /\ strip cmd = cmd
                       /\ (forall c u, cmd = c :: u -> isspace c = false)
                       /\ (forall u c, cmd = u ++ [c] -> isspace c = false))
           (extract_commands text).
Proof.
  intros text. unfold extract_commands. apply Forall_forall. intros cmd Hin.
  apply in_map_iff in Hin as [m [<- Hm]].
  apply filter_In in Hm as [_ Hne].
  destruct (strip_Trimmed m) as [l [r [_ [_ [_ [Hhead Hlast]]]]]].
  split; [now apply nonempty_iff|]. split; [apply strip_idempotent|].
  split; assumption.
Qed.

(** X2.  No command [extract_commands] returns holds the close delimiter:
    a block ends at the first close delimiter after its open delimiter, so
    text after it is never part of the command. *)
Theorem extract_commands_no_close_tag :
  forall text : str,
    Forall (fun cmd => contains CLOSE cmd = false) (extract_commands text).
Proof.
  intros text. unfold extract_commands. apply Forall_forall. intros cmd Hin.
  apply in_map_iff in Hin as [m [<- Hm]].
  apply filter_In in Hm as [Hm _].
  destruct (Blocks_bodies text (findall text) (findall_Blocks text)) as [Hb _].
  rewrite Forall_forall in Hb. specialize (Hb m Hm).
  destruct (contains CLOSE (strip m)) eqn:E; [|reflexivity].
  apply contains_occurs in E as [a [c E]].
  destruct (strip_inside m) as [l [r Hs]]. exfalso.
  apply (Hb (l ++ a) (c ++ r)). rewrite Hs at 1. rewrite E.
  now rewrite <- !app_assoc.
Qed.

(** X3.  The commands together with one open and one close delimiter each
    fit into the text, so a text of [n] characters yields at most [n / 16]
    commands. *)
Theorem extract_commands_bounded :
  forall text : str,
    list_sum (map (fun cmd => 7 + length cmd + 8) (extract_commands text))
    <= length text
    /\ 16 * length (extract_commands text) <= length text.
Proof.
  intros text.
  assert (H : list_sum (map (fun cmd => 7 + length cmd + 8) (extract_commands text))
              <= length text).
  { destruct (Blocks_bodies text (findall text) (findall_Blocks text)) as [_ Hs].
    pose proof (extract_commands_sum (findall text)) as He.
    rewrite length_OPEN, length_CLOSE in *. unfold extract_commands.
    etransitivity; [exact He | exact Hs]. }
  split; [exact H|].
  pose proof (clean_extract_commands text) as Ht.
  revert H Ht. generalize (extract_commands text) as cmds.
  generalize (length text) as n.
  intros n cmds; revert n; induction cmds as [|c cs IH]; intros n H Ht.
  - simpl. lia.
  - unfold list_sum in *. cbn [map fold_right length] in *.
    inversion Ht as [|? ? [_ Hne] Hrest]; subst.
    destruct c as [|x c]; [congruence|]. cbn [length] in H.
    specialize (IH (n - (16 + length c)) ltac:(lia) Hrest). lia.
Qed.

(** X4.  A text that lacks the open delimiter, or lacks the close
    delimiter, yields no command. *)
Theorem extract_commands_without_tags :
  forall text : str,
    contains OPEN text = false \/ contains CLOSE text = false ->
    extract_commands text = [].
Proof.
  intros text H. unfold extract_commands.
  assert (findall text = []) as ->; [|reflexivity].
  pose proof (findall_Blocks text) as Hb.
  destruct Hb as [text _ | pre body rest bodies _ _ _]; [reflexivity|].
  exfalso. destruct H as [H | H].
  - apply (contains_false _ _ H pre (body ++ CLOSE ++ rest)). reflexivity.
  - apply (contains_false _ _ H (pre ++ OPEN ++ body) rest).
    now rewrite <- !app_assoc.
Qed.

(** X4 at a concrete input: a reply that mentions only the close
    delimiter. *)
Lemma extract_commands_without_tags_witness :
  extract_commands (lit "Use the zoom command; </pymol> alone opens nothing.") = [].
Proof.
  apply extract_commands_without_tags. left. reflexivity.
Defined.

(* ------------------------------------------------------------------ *)
(** ** Further properties of the interface functions *)
(* ------------------------------------------------------------------ *)

(** Is this a residue whose value passes [>= 0] while its number does not
    read as an integer? *)
Definition unreadable {P : PyMOL2} (B : Builtins) (mobile target : str)
           (e : Engine P) (it : str * Atom) : bool :=
  ge0 (residue_value mobile target e (snd it))
  && match int_of_str B (resi_of (snd it)) with
     | None => true
     | Some _ => false
     end.

Section DictFacts.

Variables K V : Type.
Variable eqb : K -> K -> bool.
Hypothesis eqb_eq : forall a b, eqb a b = true <-> a = b.

Lemma dict_get_set_any (k n : K) (v : V) (d : list (K * V)) :
  dict_get eqb k (dict_set eqb n v d)
  = if eqb k n then Some v else dict_get eqb k d.
Proof.
  induction d as [|[k' v'] d IH]; cbn [dict_set dict_get]; [reflexivity|].
  destruct (eqb n k') eqn:Enk; cbn [dict_get].
  - apply eqb_eq in Enk. subst k'. now destruct (eqb k n).
  - rewrite IH. destruct (eqb k k') eqn:Ekk; [|reflexivity].
    apply eqb_eq in Ekk. subst k'.
    destruct (eqb k n) eqn:Ekn; [|reflexivity].
    apply eqb_eq in Ekn. subst n.
    assert (eqb k k = true) by now apply eqb_eq. congruence.
Qed.

Lemma dict_set_keys_in (k n : K) (v : V) (d : list (K * V)) :
  In k (map fst (dict_set eqb n v d)) -> k = n \/ In k (map fst d).
Proof.
  induction d as [|[k' v'] d IH]; cbn [dict_set map fst In].
  - intros [H | []]; now left.
  - destruct (eqb n k') eqn:E; cbn [map fst In].
    + apply eqb_eq in E. subst k'. intros [H | H]; [now left | now right; right].
    + intros [H | H]; [now right; left|].
      destruct (IH H) as [H' | H']; [now left | now right; right].
Qed.

Lemma dict_set_keys (n : K) (v : V) (d : list (K * V)) :
  NoDup (map fst d) ->
  NoDup (map fst (dict_set eqb n v d))
  /\ length (dict_set eqb n v d) <= S (length d).
Proof.
  induction d as [|[k' v'] d IH]; cbn [dict_set map fst length]; intros Hd.
  - split; [repeat constructor; intros [] | lia].
  - inversion Hd as [|? ? Hnot Hrest]; subst.
    destruct (eqb n k') eqn:E; cbn [map fst length].
    + apply eqb_eq in E. subst k'. split; [now constructor | lia].
    + destruct (IH Hrest) as [IH1 IH2]. split; [|lia].
      constructor; [|exact IH1]. intros Hin.
      apply dict_set_keys_in in Hin as [-> | Hin]; [|contradiction].
      assert (eqb n n = true) by now apply eqb_eq. congruence.
Qed.

End DictFacts.

Section InterfaceMore.

Variable P : PyMOL2.
Variable B : Builtins.

Lemma buf_write_other (bs : list str) (t : str) :
  forall i, i < length bs ->
            nth i (buf_write (length bs) t (bs ++ [[]])) [] = nth i bs [].
Proof.
  induction bs as [|b bs IH]; intros i Hi; cbn [length] in *; [lia|].
  cbn [app buf_write]. destruct i as [|i]; [reflexivity|].
  cbn [nth]. apply IH. lia.
Qed.

Lemma collect_residues_snoc (atoms : list Atom) (a : Atom) :
  collect_residues (atoms ++ [a])
  = dict_set str_eqb (resi_of a) a (collect_residues atoms).
Proof.
  unfold collect_residues. rewrite fold_left_app. cbn [fold_left].
  now destruct a as [[[m ch] r] rn].
Qed.

Lemma rmsd_loop_raises (mobile target : str) (e : Engine P)
      (items : list (str * Atom)) :
  forall d0,
    (exists ex, rmsd_loop B mobile target e items d0 = Raise ex)
    <-> existsb (unreadable B mobile target e) items = true.
Proof.
  induction items as [|[key a] rest IH]; intros d0.
  - cbn. split; [intros [ex H]; discriminate | discriminate].
  - cbn [rmsd_loop existsb]. unfold unreadable at 1. cbn [snd].
    destruct (ge0 (residue_value mobile target e a)); cbn [andb].
    + destruct a as [[[m ch] r] rn]. unfold py_int. cbn [resi_of].
      destruct (int_of_str B r) as [n|]; cbn [orb].
      * apply IH.
      * split; [reflexivity | intros _; eexists; reflexivity].
    + apply IH.
Qed.

End InterfaceMore.

(** X5.  A call of [execute_command] writes to no buffer that existed
    before it: a command that runs gets one new buffer of its own, an empty
    command allocates none.  The text it returns is trimmed. *)
Theorem execute_command_isolated :
  forall (P : PyMOL2) (cmd_string : str) (w : World P),
    let r := execute_command cmd_string w in
    (forall i, i < length (buffers w) ->
               nth i (buffers (snd r)) [] = nth i (buffers w) [])
    /\ length (buffers (snd r))
       = length (buffers w) + (if nonempty (strip cmd_string) then 1 else 0)
    /\ match fst r with
       | Ok output => strip output = output
       | Raise _ => True
       end.
Proof.
  intros P cmd_string w r. subst r. unfold execute_command.
  destruct (nonempty (strip cmd_string)); cbn [negb].
  - unfold get_session. world_simpl.
    destruct (_pymol w) as [i|] eqn:E; world_simpl;
      match goal with
      | |- context [cmd_do P ?c ?e] =>
          destruct (cmd_do P c e) as [[e' printed] exn]
      end;
      destruct exn; world_simpl; unfold getvalue; world_simpl;
      (split; [intros i0 Hi; now apply buf_write_other|]);
      (split; [rewrite length_buf_write, length_app; reflexivity|]);
      try exact I; apply strip_idempotent.
  - cbn [fst snd]. split; [reflexivity|]. split; [lia | reflexivity].
Qed.

(** X8.  [cmd.iterate] files the CA atoms under their residue number
    alone: the dict holds one entry per distinct number, under that number
    the last atom carrying it (an atom of another chain with the same
    number replaces the earlier one), and never more entries than atoms. *)
Theorem collect_residues_last_wins :
  forall atoms : list Atom,
    NoDup (map fst (collect_residues atoms))
    /\ (forall resi,
           dict_get str_eqb resi (collect_residues atoms)
           = find (fun a => str_eqb resi (resi_of a)) (rev atoms))
    /\ length (collect_residues atoms) <= length atoms.
Proof.
  induction atoms as [|a atoms [IH1 [IH2 IH3]]] using rev_ind.
  - split; [constructor|]. split; [reflexivity | apply Nat.le_refl].
  - rewrite collect_residues_snoc.
    destruct (dict_set_keys _ _ str_eqb str_eqb_eq (resi_of a) a _ IH1)
      as [Hn Hl].
    split; [exact Hn|]. split.
    + intros resi. rewrite (dict_get_set_any _ _ str_eqb str_eqb_eq).
      rewrite rev_app_distr. cbn [rev app find]. now rewrite IH2.
    + rewrite length_app. cbn [length]. lia.
Qed.


(* ------------------------------------------------------------------ *)
(** ** Further properties of the conversation loop *)
(* ------------------------------------------------------------------ *)

(** The roles of [n] completed exchanges. *)
Fixpoint turns (n : nat) : list Role :=
  match n with
  | O => []
  | S n' => user :: assistant :: turns n'
  end.

(** The commands held by the assistant turns of a history, in order. *)
Definition replies_commands (h : list Message) : list str :=
  flat_map (fun m => match role m with
                     | assistant => extract_commands (content m)
                     | user => []
                     end) h.

(** The turn a pass leaves without its reply: the user turn built for a
    model call that an uncaught exception ended; none otherwise. *)
Definition dangling (nx : Next) : list Role :=
  match nx with
  | Propagate _ => [user]
  | _ => []
  end.

(** [sys.stdout] is bound as before and the terminal text has only been
    added to. *)
Definition grows {P : PyMOL2} (w w' : World P) : Prop :=
  sys_stdout w' = sys_stdout w /\ exists out, terminal w' = terminal w ++ out.

Lemma turns_snoc (n : nat) : turns (S n) = turns n ++ [user; assistant].
Proof.
  induction n as [|n IH]; [reflexivity|].
  cbn [turns app] in *. now rewrite <- IH.
Qed.

Lemma length_turns (n : nat) : length (turns n) = 2 * n.
Proof. induction n as [|n IH]; simpl; lia. Qed.

(** What holds of every path through the loop body, from the steps it is
    made of. *)
Section WorldSteps.

Variable P : PyMOL2.
Variable B : Builtins.
Variable A : Anthropic.
Variable system_prompt : str.

Variable R : World P -> World P -> Prop.
Hypothesis R_refl : forall w, R w w.
Hypothesis R_trans : forall w1 w2 w3, R w1 w2 -> R w2 w3 -> R w1 w3.
Hypothesis R_write : forall t w, R w (write t w).
Hypothesis R_get_session : forall w, R w (snd (get_session w)).
Hypothesis R_execute : forall cmd w, R w (snd (execute_command cmd w)).

Lemma steps_print (t : str) (w : World P) : R w (print t w).
Proof. apply R_write. Qed.

Lemma steps_executing_commands (cmds : list str) :
  forall c : Config P A, R (world c) (world (executing_commands B cmds c)).
Proof.
  induction cmds as [|cmd rest IH]; intros c; [apply R_refl|].
  cbn [executing_commands].
  change (world (say (lit "[CMD] " ++ cmd) c))
    with (print (lit "[CMD] " ++ cmd) (world c)).
  pose proof (R_execute cmd (print (lit "[CMD] " ++ cmd) (world c))) as Hx.
  pose proof (steps_print (lit "[CMD] " ++ cmd) (world c)) as Hp.
  destruct (execute_command cmd (print (lit "[CMD] " ++ cmd) (world c)))
    as [[[|o output]|e] w2]; cbn [snd] in Hx;
    (eapply R_trans; [|apply IH]);
    cbn [world say set_world set_pending];
    repeat (eapply R_trans; [eassumption|]);
    try apply steps_print; apply R_refl.
Qed.

Lemma steps_await_model (c : Config P A) :
  R (world c) (world (snd (await_model B system_prompt c))).
Proof.
  unfold await_model.
  destruct (messages_create A MODEL MAX_TOKENS system_prompt
              (conversation_history c) (client c)) as [[reply|e|e] cl];
    cbn [snd]; [| |apply R_refl].
  - match goal with
    | |- context [executing_commands B (extract_commands reply) ?c0] =>
        pose proof (steps_executing_commands (extract_commands reply) c0) as Hc
    end.
    cbn [world say set_world set_history] in Hc.
    destruct (extract_commands reply); cbn [world say set_world];
      (eapply R_trans; [apply steps_print|]);
      (eapply R_trans; [exact Hc|]);
      try apply steps_print; apply R_refl.
  - cbn [world say set_world set_history]. apply steps_print.
Qed.

Lemma steps_iteration (ev : Input) (c : Config P A) :
  R (world c) (world (snd (iteration B system_prompt ev c))).
Proof.
  unfold iteration.
  assert (Hp : R (world c) (world (prompted c))) by apply R_write.
  destruct ev as [text|].
  - destruct (nonempty (strip text)); cbn [negb]; [|exact Hp].
    destruct (str_in _ _).
    { cbn [snd world say set_world].
      eapply R_trans; [exact Hp | apply steps_print]. }
    destruct (str_in _ _).
    + cbn [snd world say set_world set_mode].
      eapply R_trans; [exact Hp | apply steps_print].
    + eapply R_trans; [|apply steps_await_model].
      destruct (build_context_fields P A (strip text) (prompted c))
        as [_ [_ [_ [_ [_ Hw]]]]].
      rewrite Hw. eapply R_trans; [exact Hp | apply R_get_session].
  - cbn [snd world say set_world].
    eapply R_trans; [exact Hp | apply steps_print].
Qed.

Lemma steps_loop (events : list Input) :
  forall c : Config P A,
    R (world c) (world (snd (loop B system_prompt events c))).
Proof.
  induction events as [|ev rest IH]; intros c; [apply R_refl|].
  cbn [loop]. pose proof (steps_iteration ev c) as Hi.
  destruct (iteration B system_prompt ev c) as [[| |e] c']; cbn [snd] in *.
  - eapply R_trans; [exact Hi | apply IH].
  - exact Hi.
  - exact Hi.
Qed.

End WorldSteps.

Section GrowsProofs.

Variable P : PyMOL2.

Lemma grows_refl (w : World P) : grows w w.
Proof. split; [reflexivity|]. exists []. now rewrite app_nil_r. Qed.

Lemma grows_trans (w1 w2 w3 : World P) :
  grows w1 w2 -> grows w2 w3 -> grows w1 w3.
Proof.
  intros [H1 [o1 T1]] [H2 [o2 T2]]. split; [congruence|].
  exists (o1 ++ o2). now rewrite T2, T1, app_assoc.
Qed.

Lemma grows_write (t : str) (w : World P) : grows w (write t w).
Proof.
  split; [apply write_frame|]. unfold write.
  destruct (sys_stdout w); world_simpl.
  - now exists t.
  - exists []. now rewrite app_nil_r.
Qed.

Lemma grows_get_session (w : World P) : grows w (snd (get_session w)).
Proof.
  destruct (get_session_frame P w) as [H1 [H2 _]]. split; [exact H1|].
  exists []. now rewrite app_nil_r.
Qed.

Lemma grows_close_session (w : World P) : grows w (close_session w).
Proof.
  unfold close_session. destruct (_pymol w); [|apply grows_refl].
  split; [reflexivity|]. exists []. world_simpl. now rewrite app_nil_r.
Qed.

End GrowsProofs.

Section LoopMore.

Variable P : PyMOL2.
Variable B : Builtins.
Variable A : Anthropic.
Variable system_prompt : str.

Lemma grows_execute_command (cmd : str) (w : World P) :
  grows w (snd (execute_command cmd w)).
Proof.
  unfold execute_command.
  destruct (nonempty (strip cmd)); cbn [negb]; [|apply grows_refl].
  unfold get_session. world_simpl.
  destruct (_pymol w) as [i|] eqn:E; world_simpl;
    match goal with
    | |- context [cmd_do P ?c ?e] =>
        destruct (cmd_do P c e) as [[e' printed] exn]
    end;
    destruct exn; world_simpl;
    (split; world_simpl; [reflexivity | exists []; now rewrite app_nil_r]).
Qed.

Lemma same_lifecycle_held (w w' : World P) :
  same_lifecycle w w' -> _pymol w <> None -> _pymol w' <> None.
Proof.
  intros [Hh _] Hw Hn. unfold held in Hh. rewrite Hn in Hh.
  destruct (_pymol w); [discriminate | congruence].
Qed.

Lemma same_lifecycle_get_session (w w' : World P) :
  same_lifecycle w w' ->
  same_lifecycle (snd (get_session w)) (snd (get_session w')).
Proof.
  intros [Hh [Hl [Hs Hn]]]. unfold get_session, held in *.
  destruct (_pymol w) as [i|] eqn:E, (_pymol w') as [i'|] eqn:E';
    try discriminate; unfold same_lifecycle, held; world_simpl.
  - rewrite E, E'. now repeat split.
  - rewrite Hl, Hn. now repeat split.
Qed.

Lemma executing_commands_session (cmds : list str) :
  forall c : Config P A,
    _pymol (world c) <> None ->
    same_lifecycle (world c) (world (executing_commands B cmds c)).
Proof.
  induction cmds as [|cmd rest IH]; intros c Hc; [apply same_lifecycle_refl|].
  cbn [executing_commands].
  change (world (say (lit "[CMD] " ++ cmd) c))
    with (print (lit "[CMD] " ++ cmd) (world c)).
  pose proof (same_lifecycle_print P (lit "[CMD] " ++ cmd) (world c)) as Hp.
  pose proof (same_lifecycle_held _ _ Hp Hc) as Hc1.
  assert (Hx : same_lifecycle (print (lit "[CMD] " ++ cmd) (world c))
                 (snd (execute_command cmd (print (lit "[CMD] " ++ cmd) (world c))))).
  { destruct (execute_command_lifecycle P cmd
                (print (lit "[CMD] " ++ cmd) (world c))) as [H | ->];
      [|apply same_lifecycle_refl].
    unfold get_session in H.
    destruct (_pymol (print (lit "[CMD] " ++ cmd) (world c))); [exact H | congruence]. }
  pose proof (same_lifecycle_trans P _ _ _ Hp Hx) as H2.
  destruct (execute_command cmd (print (lit "[CMD] " ++ cmd) (world c)))
    as [[[|o output]|e] w2]; cbn [snd] in *;
    match goal with
    | |- same_lifecycle _ (world (executing_commands B rest ?c0)) =>
        assert (H0 : same_lifecycle (world c) (world c0))
    end;
    try (cbn [world say set_world set_pending];
         first [ exact H2
               | eapply same_lifecycle_trans;
                 [exact H2 | apply same_lifecycle_print] ]);
    (eapply same_lifecycle_trans;
     [exact H0 | apply IH; eapply same_lifecycle_held; [exact H0 | exact Hc]]).
Qed.

(** The ways a pass through the loop body can go: no model call; a model
    call that raises the API error; a model call that returns a reply
    whose commands are then run; a model call that ends in an exception
    nothing catches. *)
Lemma iteration_cases (ev : Input) (c : Config P A) :
  let nx := fst (iteration B system_prompt ev c) in
  let c' := snd (iteration B system_prompt ev c) in
  (dangling nx = []
   /\ conversation_history c' = conversation_history c
   /\ requests c' = requests c
   /\ submitted (world c') = submitted (world c)
   /\ same_lifecycle (world c) (world c'))
  \/ (exists u,
         role u = user
         /\ requests c' = requests c ++ [conversation_history c ++ [u]]
         /\ _pymol (world c') <> None
         /\ same_lifecycle (snd (get_session (world c))) (world c')
         /\ ((dangling nx = []
              /\ conversation_history c' = conversation_history c
              /\ submitted (world c') = submitted (world c))
             \/ (dangling nx = []
                 /\ exists reply,
                     conversation_history c'
                     = conversation_history c
                       ++ [u; {| role := assistant; content := reply |}]
                     /\ submitted (world c')
                        = submitted (world c) ++ extract_commands reply)
             \/ (dangling nx = [user]
                 /\ conversation_history c' = conversation_history c ++ [u]
                 /\ submitted (world c') = submitted (world c)))).
Proof.
  intros nx c'. subst nx c'. unfold iteration.
  assert (Hq : forall t, same_lifecycle (world c)
                           (print t (write (lit "You: ") (world c)))).
  { intros t. eapply same_lifecycle_trans;
      [apply same_lifecycle_write | apply same_lifecycle_print]. }
  assert (Hsub : forall t, submitted (print t (write (lit "You: ") (world c)))
                           = submitted (world c)).
  { intros t. destruct (print_frame P t (write (lit "You: ") (world c)))
      as [_ [H _]]. rewrite H.
    now destruct (write_frame P (lit "You: ") (world c)) as [_ [_ [_ [_ [_ H']]]]]. }
  destruct ev as [text|];
    [|left; cbn [fst snd conversation_history requests world say set_world prompted];
      rewrite Hsub; do 4 (split; [reflexivity|]); apply Hq].
  destruct (nonempty (strip text)); cbn [negb].
  2:{ left. cbn [fst snd conversation_history requests world set_world prompted].
      destruct (write_frame P (lit "You: ") (world c)) as [_ [_ [_ [_ [_ H']]]]].
      rewrite H'. do 4 (split; [reflexivity|]). apply same_lifecycle_write. }
  destruct (str_in _ _).
  { left. cbn [fst snd conversation_history requests world say set_world prompted].
    rewrite Hsub. do 4 (split; [reflexivity|]). apply Hq. }
  destruct (str_in _ _).
  { left. cbn [fst snd conversation_history requests world say set_world set_mode prompted].
    rewrite Hsub. do 4 (split; [reflexivity|]). apply Hq. }
  right. exists (user_turn (strip text) c). split; [reflexivity|].
  rewrite await_model_requests.
  destruct (build_context_fields P A (strip text) (prompted c))
    as [Hh [Hp [Hm [Hc [Hr Hw]]]]].
  rewrite user_turn_prompted in Hh.
  cbn [prompted set_world conversation_history client requests world] in Hh, Hc, Hr, Hw.
  rewrite Hh, Hr. split; [reflexivity|].
  set (w1 := snd (get_session (write (lit "You: ") (world c)))) in *.
  assert (Hw1 : _pymol w1 <> None).
  { subst w1. rewrite get_session_holds. discriminate. }
  assert (Hl1 : same_lifecycle (snd (get_session (world c))) w1).
  { subst w1. apply same_lifecycle_get_session. apply same_lifecycle_write. }
  assert (Hs1 : submitted w1 = submitted (world c)).
  { subst w1.
    destruct (get_session_frame P (write (lit "You: ") (world c)))
      as [_ [_ [_ [H _]]]]. rewrite H.
    now destruct (write_frame P (lit "You: ") (world c)) as [_ [_ [_ [_ [_ H']]]]]. }
  unfold await_model. rewrite Hh.
  destruct (messages_create A MODEL MAX_TOKENS system_prompt
              (conversation_history c ++ [user_turn (strip text) c])
              (client (build_context (strip text) (prompted c))))
    as [[reply|e|e] cl]; cbn [fst snd].
  - match goal with
    | |- context [executing_commands B (extract_commands reply) ?c0] =>
        set (c3 := c0)
    end.
    assert (Hw3 : world c3
                  = print (newline ++ lit "Agent: " ++ reply ++ newline) w1).
    { subst c3. cbn [world say set_world set_history]. now rewrite Hw. }
    assert (Hl3 : same_lifecycle w1 (world c3))
      by (rewrite Hw3; apply same_lifecycle_print).
    assert (Hp3 : _pymol (world c3) <> None)
      by exact (same_lifecycle_held _ _ Hl3 Hw1).
    pose proof (executing_commands_session (extract_commands reply) c3 Hp3) as Hl4.
    destruct (executing_commands_outcomes P B A (extract_commands reply) c3
                (clean_extract_commands reply)) as [Hs4 _].
    destruct (executing_commands_frame P B A (extract_commands reply) c3)
      as [Hh4 _].
    assert (Hs3 : submitted (world c3) = submitted (world c)).
    { rewrite Hw3.
      destruct (print_frame P (newline ++ lit "Agent: " ++ reply ++ newline) w1)
        as [_ [H _]]. now rewrite H. }
    assert (Hh3 : conversation_history c3
                  = conversation_history c
                    ++ [user_turn (strip text) c;
                        {| role := assistant; content := reply |}]).
    { subst c3. cbn [conversation_history say set_world set_history].
      now rewrite <- app_assoc. }
    assert (Hall : same_lifecycle (snd (get_session (world c)))
                     (world (executing_commands B (extract_commands reply) c3))).
    { eapply same_lifecycle_trans; [exact Hl1|].
      eapply same_lifecycle_trans; [exact Hl3 | exact Hl4]. }
    assert (Hne : _pymol (world (executing_commands B (extract_commands reply) c3))
                  <> None)
      by exact (same_lifecycle_held _ _ Hl4 Hp3).
    rewrite Hs3 in Hs4. rewrite Hh3 in Hh4.
    destruct (extract_commands reply) as [|cmd cmds] eqn:Ecmds.
    + split; [exact Hne|]. split; [exact Hall|]. right. left.
      split; [reflexivity|]. exists reply.
      rewrite Ecmds. split; assumption.
    + cbn [world conversation_history say set_world].
      pose proof (same_lifecycle_print P []
                    (world (executing_commands B (cmd :: cmds) c3))) as Hfin.
      destruct (print_frame P []
                  (world (executing_commands B (cmd :: cmds) c3)))
        as [_ [Hsf _]].
      split; [exact (same_lifecycle_held _ _ Hfin Hne)|].
      split; [exact (same_lifecycle_trans P _ _ _ Hall Hfin)|].
      right. left. split; [reflexivity|].
      exists reply. rewrite Hsf, Ecmds. split; assumption.
  - cbn [world conversation_history say set_world set_history].
    rewrite removelast_last, Hw.
    pose proof (same_lifecycle_print P
                  (lit "[ERROR] API call failed: " ++ str_of_exn e ++ newline) w1)
      as Hfin.
    destruct (print_frame P
                (lit "[ERROR] API call failed: " ++ str_of_exn e ++ newline) w1)
      as [_ [Hsf _]].
    split; [exact (same_lifecycle_held _ _ Hfin Hw1)|].
    split; [exact (same_lifecycle_trans P _ _ _ Hl1 Hfin)|].
    left. split; [reflexivity|]. split; [reflexivity|]. now rewrite Hsf.
  - cbn [world conversation_history]. rewrite Hw.
    split; [exact Hw1|]. split; [exact Hl1|].
    right. right. split; [reflexivity|]. split; [reflexivity | exact Hs1].
Qed.

End LoopMore.

Section LoopInvariants.

Variable P : PyMOL2.
Variable B : Builtins.
Variable A : Anthropic.
Variable system_prompt : str.

(** The history is a sequence of completed exchanges, no more of them
    than model calls, followed by the dangling turn if the pass left one;
    every request is such a sequence followed by one user turn. *)
Definition well_shaped (nx : Next) (c : Config P A) : Prop :=
  (exists n, map role (conversation_history c) = turns n ++ dangling nx
             /\ n <= length (requests c))
  /\ Forall (fun req => exists k, map role req = turns k ++ [user]) (requests c).

Lemma well_shaped_iteration (ev : Input) (c : Config P A) :
  well_shaped Continue c ->
  well_shaped (fst (iteration B system_prompt ev c))
              (snd (iteration B system_prompt ev c))
  /\ length (requests (snd (iteration B system_prompt ev c)))
     <= S (length (requests c)).
Proof.
  intros [[n [Hn Hle]] Hreq]. unfold well_shaped.
  cbn [dangling] in Hn. rewrite app_nil_r in Hn.
  destruct (iteration_cases P B A system_prompt ev c)
    as [[Hd [Hh [Hr _]]] | [u [Hu [Hr [_ [_ Hcase]]]]]].
  - rewrite Hr, Hd. split; [|lia]. split; [|exact Hreq].
    exists n. now rewrite Hh, app_nil_r.
  - rewrite Hr, length_app. cbn [length]. split; [|lia].
    assert (Hnew : Forall (fun req => exists k, map role req = turns k ++ [user])
                     (requests c ++ [conversation_history c ++ [u]])).
    { apply Forall_app. split; [exact Hreq|]. constructor; [|constructor].
      exists n. now rewrite map_app, Hn, <- Hu. }
    destruct Hcase as [[Hd [Hh _]] | [[Hd [reply [Hh _]]] | [Hd [Hh _]]]];
      rewrite Hd.
    + split; [|exact Hnew]. exists n. rewrite Hh, app_nil_r.
      split; [exact Hn | lia].
    + split; [|exact Hnew]. exists (S n).
      rewrite Hh, map_app, Hn, turns_snoc, app_nil_r.
      cbn [map role]. rewrite Hu. split; [reflexivity | lia].
    + split; [|exact Hnew]. exists n. rewrite Hh, map_app, Hn.
      cbn [map]. rewrite Hu. split; [reflexivity | lia].
Qed.

Lemma well_shaped_loop (events : list Input) :
  forall c : Config P A,
    well_shaped Continue c ->
    well_shaped (fst (loop B system_prompt events c))
                (snd (loop B system_prompt events c))
    /\ length (requests (snd (loop B system_prompt events c)))
       <= length (requests c) + length events.
Proof.
  induction events as [|ev rest IH]; intros c H.
  - cbn. split; [exact H | lia].
  - cbn [loop length].
    destruct (well_shaped_iteration ev c H) as [Hi Hl].
    destruct (iteration B system_prompt ev c) as [[| |e] c']; cbn [fst snd] in *.
    + destruct (IH c' Hi) as [H1 H2]. split; [exact H1 | lia].
    + split; [exact Hi | lia].
    + split; [exact Hi | lia].
Qed.

(** The engine has received the commands of the assistant turns, in
    order, on top of what it had received before the run. *)
Definition commands_from_replies (before : list str) (c : Config P A) : Prop :=
  submitted (world c) = before ++ replies_commands (conversation_history c).

Lemma commands_from_replies_iteration (before : list str) (ev : Input)
      (c : Config P A) :
  commands_from_replies before c ->
  commands_from_replies before (snd (iteration B system_prompt ev c)).
Proof.
  unfold commands_from_replies. intros H.
  destruct (iteration_cases P B A system_prompt ev c)
    as [[_ [Hh [_ [Hs _]]]] | [u [Hu [_ [_ [_ Hcase]]]]]].
  - now rewrite Hh, Hs.
  - destruct Hcase as [[_ [Hh Hs]] | [[_ [reply [Hh Hs]]] | [_ [Hh Hs]]]].
    + now rewrite Hh, Hs.
    + rewrite Hh, Hs, H. unfold replies_commands.
      rewrite flat_map_app. cbn [flat_map role content]. rewrite Hu.
      cbn [app]. now rewrite app_nil_r, app_assoc.
    + rewrite Hh, Hs, H. unfold replies_commands.
      rewrite flat_map_app. cbn [flat_map]. rewrite Hu.
      cbn [app]. now rewrite app_nil_r.
Qed.

Lemma commands_from_replies_loop (before : list str) (events : list Input) :
  forall c : Config P A,
    commands_from_replies before c ->
    commands_from_replies before (snd (loop B system_prompt events c)).
Proof.
  induction events as [|ev rest IH]; intros c H; [exact H|].
  cbn [loop]. pose proof (commands_from_replies_iteration before ev c H) as Hi.
  destruct (iteration B system_prompt ev c) as [[| |e] c']; cbn [snd] in *.
  - now apply IH.
  - exact Hi.
  - exact Hi.
Qed.

(** No session before the first model call, one from then on. *)
Definition started_on_demand (c : Config P A) : Prop :=
  (requests c = [] /\ spawned (world c) = 0 /\ _pymol (world c) = None)
  \/ (requests c <> [] /\ spawned (world c) = 1 /\ _pymol (world c) <> None).

Lemma held_none (w : World P) : held w = [] <-> _pymol w = None.
Proof. unfold held. destruct (_pymol w); split; congruence. Qed.

Lemma started_on_demand_iteration (ev : Input) (c : Config P A) :
  started_on_demand c ->
  started_on_demand (snd (iteration B system_prompt ev c)).
Proof.
  intros H. unfold started_on_demand in *.
  destruct (iteration_cases P B A system_prompt ev c)
    as [[_ [_ [Hr [_ [Hh [_ [_ Hn]]]]]]] | [u [_ [Hr [Hp [[_ [_ [_ Hn]]] _]]]]]].
  - destruct H as [[H1 [H2 H3]] | [H1 [H2 H3]]]; [left | right];
      rewrite Hr, Hn; (split; [exact H1|]); (split; [exact H2|]).
    + apply held_none. rewrite Hh. now apply held_none.
    + intros Hc. apply held_none in Hc. rewrite Hh in Hc.
      now apply held_none in Hc.
  - right. rewrite Hr. split; [now destruct (requests c)|]. split; [|exact Hp].
    rewrite Hn. unfold get_session.
    destruct H as [[_ [H2 H3]] | [_ [H2 H3]]].
    + rewrite H3. world_simpl. now rewrite H2.
    + destruct (_pymol (world c)); [exact H2 | congruence].
Qed.

Lemma started_on_demand_loop (events : list Input) :
  forall c : Config P A,
    started_on_demand c ->
    started_on_demand (snd (loop B system_prompt events c)).
Proof.
  induction events as [|ev rest IH]; intros c H; [exact H|].
  cbn [loop]. pose proof (started_on_demand_iteration ev c H) as Hi.
  destruct (iteration B system_prompt ev c) as [[| |e] c']; cbn [snd] in *.
  - now apply IH.
  - exact Hi.
  - exact Hi.
Qed.

End LoopInvariants.

Section RunProofs.

Variable P : PyMOL2.
Variable B : Builtins.
Variable A : Anthropic.
Variable system_prompt : str.

Lemma close_session_frame (w : World P) :
  submitted (close_session w) = submitted w
  /\ spawned (close_session w) = spawned w.
Proof. unfold close_session. destruct (_pymol w); now split. Qed.

Lemma startup_frame (start_mode : str) (w : World P) :
  conversation_history (startup A start_mode w) = []
  /\ requests (startup A start_mode w) = []
  /\ submitted (world (startup A start_mode w)) = submitted w
  /\ same_lifecycle w (world (startup A start_mode w))
  /\ grows w (world (startup A start_mode w)).
Proof.
  unfold startup. cbn [conversation_history requests world say set_world].
  split; [reflexivity|]. split; [reflexivity|]. split; [|split].
  - destruct (print_frame P (lit "Type 'guided' or 'expert' to switch modes, 'quit' to exit." ++ newline)
                (print (lit "PyMOL Agent ready (mode: " ++ start_mode ++ lit ").") w))
      as [_ [H _]]. rewrite H.
    now destruct (print_frame P (lit "PyMOL Agent ready (mode: " ++ start_mode ++ lit ").") w)
      as [_ [H' _]].
  - eapply same_lifecycle_trans; apply same_lifecycle_print.
  - eapply grows_trans; apply grows_write.
Qed.

(** What the configuration at the end of [run_agent] shares with the one
    the loop ended in. *)
Lemma run_agent_result (start_mode : str) (events : list Input) (w : World P) :
  let c := snd (loop B system_prompt events (startup A start_mode w)) in
  let r := snd (run_agent B A system_prompt start_mode events w) in
  conversation_history r = conversation_history c
  /\ requests r = requests c
  /\ submitted (world r) = submitted (world c)
  /\ spawned (world r) = spawned (world c)
  /\ grows (world c) (world r).
Proof.
  intros c r. subst c r. unfold run_agent.
  destruct (loop B system_prompt events (startup A start_mode w)) as [[| |e] c];
    cbn [snd conversation_history requests world set_world].
  - repeat split; try reflexivity. exists []. now rewrite app_nil_r.
  - destruct (close_session_frame (world c)) as [H1 H2].
    rewrite H1, H2. do 4 (split; [reflexivity|]). apply grows_close_session.
  - repeat split; try reflexivity. exists []. now rewrite app_nil_r.
Qed.

(** A run ends as an exception exactly when its loop did. *)
Lemma run_agent_dangling (start_mode : str) (events : list Input) (w : World P) :
  dangling (fst (loop B system_prompt events (startup A start_mode w)))
  = match fst (run_agent B A system_prompt start_mode events w) with
    | Raised _ => [user]
    | _ => []
    end.
Proof.
  unfold run_agent.
  now destruct (loop B system_prompt events (startup A start_mode w))
    as [[| |e] c].
Qed.

End RunProofs.

(** X6.  Whatever the inputs, when [run_agent] waits for a line or has
    ended, [conversation_history] is a sequence of completed exchanges: a
    user turn, an assistant turn, and so on, never two turns of one role in
    a row and never a user turn left without its reply; there are no more
    exchanges than calls of the model.  When an exception left
    [run_agent], the history it had is such a sequence followed by the one
    user turn built for the call that was under way. *)
Theorem history_alternates :
  forall (P : PyMOL2) (B : Builtins) (A : Anthropic)
         (system_prompt start_mode : str) (events : list Input) (w : World P),
    let r := run_agent B A system_prompt start_mode events w in
    let c := snd r in
    exists n,
      n <= length (requests c)
      /\ match fst r with
         | Raised _ =>
             map role (conversation_history c) = turns n ++ [user]
             /\ length (conversation_history c) = 2 * n + 1
         | _ =>
             map role (conversation_history c) = turns n
             /\ length (conversation_history c) = 2 * n
         end.
Proof.
  intros P B A sp start_mode events w r c. subst c r.
  destruct (run_agent_result P B A sp start_mode events w) as [Hh [Hr _]].
  destruct (startup_frame P A start_mode w) as [Sh [Sr _]].
  assert (H0 : well_shaped P A Continue (startup A start_mode w)).
  { split; [exists 0; rewrite Sh, Sr; now split | rewrite Sr; constructor]. }
  destruct (well_shaped_loop P B A sp events _ H0) as [[[n [Hn Hle]] _] _].
  rewrite (run_agent_dangling P B A sp start_mode events w) in Hn.
  exists n. rewrite Hh, Hr. split; [exact Hle|].
  assert (Hlen : forall l, map role
                   (conversation_history
                      (snd (loop B sp events (startup A start_mode w))))
                 = turns n ++ l ->
                 length (conversation_history
                           (snd (loop B sp events (startup A start_mode w))))
                 = 2 * n + length l).
  { intros l Hl. rewrite <- (length_map role), Hl, length_app, length_turns.
    reflexivity. }
  destruct (fst (run_agent B A sp start_mode events w)).
  - rewrite (Hlen _ Hn). rewrite app_nil_r in Hn. split; [exact Hn | simpl; lia].
  - rewrite (Hlen _ Hn). rewrite app_nil_r in Hn. split; [exact Hn | simpl; lia].
  - rewrite (Hlen _ Hn). split; [exact Hn | reflexivity].
Qed.

(** X7.  Every list of messages handed to the model is a sequence of
    completed exchanges followed by exactly one user turn, and the model is
    called at most once per line read. *)
Theorem requests_end_with_user_turn :
  forall (P : PyMOL2) (B : Builtins) (A : Anthropic)
         (system_prompt start_mode : str) (events : list Input) (w : World P),
    let c := snd (run_agent B A system_prompt start_mode events w) in
    Forall (fun req => exists k, map role req = turns k ++ [user]) (requests c)
    /\ length (requests c) <= length events.
Proof.
  intros P B A sp start_mode events w c. subst c.
  destruct (run_agent_result P B A sp start_mode events w) as [_ [Hr _]].
  destruct (startup_frame P A start_mode w) as [Sh [Sr _]].
  assert (H0 : well_shaped P A Continue (startup A start_mode w)).
  { split; [exists 0; rewrite Sh, Sr; now split | rewrite Sr; constructor]. }
  destruct (well_shaped_loop P B A sp events _ H0) as [[_ Hreq] Hlen].
  rewrite Hr. split; [exact Hreq|]. rewrite Sr in Hlen. exact Hlen.
Qed.

(** X10.  The strings the engine received during a run are exactly the
    commands of the assistant turns in [conversation_history], in order:
    nothing the user typed and nothing a command printed is executed, even
    when it holds the command tags, and no command of a committed reply is
    skipped. *)
Theorem engine_receives_reply_commands :
  forall (P : PyMOL2) (B : Builtins) (A : Anthropic)
         (system_prompt start_mode : str) (events : list Input) (w : World P),
    let c := snd (run_agent B A system_prompt start_mode events w) in
    submitted (world c)
    = submitted w ++ replies_commands (conversation_history c).
Proof.
  intros P B A sp start_mode events w c. subst c.
  destruct (run_agent_result P B A sp start_mode events w) as [Hh [_ [Hs _]]].
  destruct (startup_frame P A start_mode w) as [Sh [_ [Ss _]]].
  rewrite Hh, Hs.
  apply (commands_from_replies_loop P B A sp (submitted w) events).
  unfold commands_from_replies. rewrite Sh, Ss. cbn. now rewrite app_nil_r.
Qed.

(** X11.  PyMOL is started on demand: in a process that starts without
    a session, a run in which no line reached the model constructs no
    instance, and a run in which one did constructs exactly one. *)
Theorem session_started_on_first_model_call :
  forall (P : PyMOL2) (B : Builtins) (A : Anthropic)
         (system_prompt start_mode : str) (events : list Input),
    let c := snd (run_agent B A system_prompt start_mode events (initial_world P)) in
    spawned (world c) = Nat.min 1 (length (requests c)).
Proof.
  intros P B A sp start_mode events c. subst c.
  destruct (run_agent_result P B A sp start_mode events (initial_world P))
    as [_ [Hr [_ [Hn _]]]].
  destruct (startup_frame P A start_mode (initial_world P))
    as [_ [Sr [_ [[Hheld [_ [_ Hsp]]] _]]]].
  assert (H0 : started_on_demand P A (startup A start_mode (initial_world P))).
  { left. split; [exact Sr|]. split; [exact Hsp|].
    apply held_none. now rewrite Hheld. }
  rewrite Hr, Hn. clear Hr Hn.
  destruct (started_on_demand_loop P B A sp events _ H0)
    as [[H1 [H2 _]] | [H1 [H2 _]]]; rewrite H2.
  - now rewrite H1.
  - destruct (requests (snd (loop B sp events
                               (startup A start_mode (initial_world P)))));
      [congruence | reflexivity].
Qed.

(** X12.  A run is closed exactly when some input ends the conversation
    (a quit word in any case, with or without blanks around it, or the end
    of the input or an interrupt) and the run was waiting for input when it
    came.  What follows such an input is never read: the run on the whole
    input is the run on the input up to and including it. *)
Theorem input_after_exit_ignored :
  forall (P : PyMOL2) (B : Builtins) (A : Anthropic)
         (system_prompt start_mode : str) (events : list Input) (w : World P),
    (fst (run_agent B A system_prompt start_mode events w) = Closed
     <-> exists pre ev post,
           events = pre ++ ev :: post
           /\ leaves B ev = true
           /\ fst (run_agent B A system_prompt start_mode pre w) = AwaitingInput)
    /\ (forall pre ev post,
           events = pre ++ ev :: post ->
           leaves B ev = true ->
           run_agent B A system_prompt start_mode events w
           = run_agent B A system_prompt start_mode (pre ++ [ev]) w).
Proof.
  intros P B A sp start_mode events w. split; [split|].
  - intros H. unfold run_agent in H.
    destruct (loop B sp events (startup A start_mode w)) as [[| |e] c] eqn:El;
      try discriminate.
    destruct (loop_break P B A sp events (startup A start_mode w))
      as [pre [ev [post [He [Hl Hc]]]]]; [now rewrite El|].
    exists pre, ev, post. split; [exact He|]. split; [exact Hl|].
    unfold run_agent.
    destruct (loop B sp pre (startup A start_mode w)) as [[| |e] c'];
      cbn [fst] in *; congruence.
  - intros [pre [ev [post [-> [Hl Hc]]]]].
    destruct (loop_leaves P B A sp pre ev post (startup A start_mode w) Hl)
      as [He Hb].
    unfold run_agent in *. rewrite He.
    destruct (loop B sp pre (startup A start_mode w)) as [[| |e] c'];
      cbn [fst] in *; try discriminate.
    specialize (Hb eq_refl).
    destruct (loop B sp (pre ++ [ev]) (startup A start_mode w)) as [[| |e] c''];
      cbn [fst] in *; congruence.
  - intros pre ev post -> Hl.
    destruct (loop_leaves P B A sp pre ev post (startup A start_mode w) Hl)
      as [He _].
    unfold run_agent. now rewrite He.
Qed.

(** X13.  A run leaves [sys.stdout] bound to what it was bound to when
    the run began, whatever the commands did, and only ever adds to the
    text on the terminal. *)
Theorem run_agent_keeps_stdout :
  forall (P : PyMOL2) (B : Builtins) (A : Anthropic)
         (system_prompt start_mode : str) (events : list Input) (w : World P),
    let c := snd (run_agent B A system_prompt start_mode events w) in
    sys_stdout (world c) = sys_stdout w
    /\ exists out, terminal (world c) = terminal w ++ out.
Proof.
  intros P B A sp start_mode events w c. subst c.
  destruct (run_agent_result P B A sp start_mode events w) as [_ [_ [_ [_ Hg]]]].
  destruct (startup_frame P A start_mode w) as [_ [_ [_ [_ Sg]]]].
  pose proof (steps_loop P B A sp (@grows P) (grows_refl P) (grows_trans P)
                (grows_write P) (grows_get_session P)
                (grows_execute_command P) events (startup A start_mode w)) as Hl.
  exact (grows_trans P _ _ _ Sg (grows_trans P _ _ _ Hl Hg)).
Qed.

(* ------------------------------------------------------------------ *)
(** ** pymol_interface.py: publication presets *)
(* ------------------------------------------------------------------ *)

(** A value handed to [cmd.set]. *)
Inductive SettingValue : Type :=
| IntValue (n : Z)
| FloatValue (f : float).

(** The styling calls of the engine.  [cmd.bg_color] and [cmd.set] are
    called with constant arguments only and are taken to return normally.
    [cmd.color] is called with a selection built from the names the
    session holds and may raise, as it does on a selection PyMOL cannot
    parse ([X and chain ] for a chain whose identifier is blank): it
    yields the engine state it leaves and the exception, if any. *)
Record Styling (P : PyMOL2) : Type := {
  cmd_bg_color : str -> Engine P -> Engine P;
  cmd_set : str -> SettingValue -> Engine P -> Engine P;
  cmd_color : str -> str -> Engine P -> Engine P * option Exn
}.
Arguments cmd_bg_color {P} s color e.
Arguments cmd_set {P} s name value e.
Arguments cmd_color {P} s color selection e.

Definition wong_palette : list str :=
  [lit "0x0072B2"; lit "0xD55E00"; lit "0x009E73"; lit "0xF0E442";
   lit "0x56B4E9"; lit "0xE69F00"; lit "0xCC79A7"].

(** The colour of the chain at position [i] of its object. *)
Definition chain_colour (i : nat) : str :=
  nth (i mod 7) wong_palette [].

Section Presets.

Variable P : PyMOL2.
Variable B : Builtins.
Variable S : Styling P.

Definition preset_journal_standard (w : World P) : World P :=
  let (i, w1) := get_session w in
  let e := cmd_bg_color S (lit "white") (inst_engine i) in
  let e := cmd_set S (lit "ray_opaque_background") (IntValue 1) e in
  let e := cmd_set S (lit "antialias") (IntValue 2) e in
  let e := cmd_set S (lit "ray_shadows") (IntValue 1) e in
  let e := cmd_set S (lit "depth_cue") (IntValue 0) e in
  let e := cmd_set S (lit "ray_trace_fog") (IntValue 0) e in
  set_engine i e w1.

Definition preset_presentation (w : World P) : World P :=
  let (i, w1) := get_session w in
  let e := cmd_bg_color S (lit "black") (inst_engine i) in
  let e := cmd_set S (lit "ray_opaque_background") (IntValue 1) e in
  let e := cmd_set S (lit "antialias") (IntValue 2) e in
  let e := cmd_set S (lit "ray_shadows") (IntValue 0) e in
  let e := cmd_set S (lit "depth_cue") (IntValue 1) e in
  let e := cmd_set S (lit "line_width") (IntValue 3) e in
  let e := cmd_set S (lit "stick_radius") (FloatValue 0.25%float) e in
  set_engine i e w1.

(** [for i, chain in enumerate(chains)], from index [i] on: the engine
    state the loop ends in and the exception that ended it, if any.  The
    list subscript [wong_palette[i % len(wong_palette)]] raises
    [IndexError] when the index is out of range; an exception of
    [cmd.color] is not caught. *)
Fixpoint color_chains (obj : str) (i : nat) (chains : list str) (e : Engine P)
  : Engine P * option Exn :=
  match chains with
  | [] => (e, None)
  | chain :: rest =>
      match nth_error wong_palette (i mod length wong_palette) with
      | Some color_hex =>
          match cmd_color S color_hex (obj ++ lit " and chain " ++ chain) e with
          | (e', None) => color_chains obj (Datatypes.S i) rest e'
          | (e', Some ex) => (e', Some ex)
          end
      | None => (e, Some (Exception (lit "list index out of range")))
      end
  end.

(** [for obj in objects] *)
Fixpoint color_objects (objects : list str) (e : Engine P)
  : Engine P * option Exn :=
  match objects with
  | [] => (e, None)
  | obj :: rest =>
      match color_chains obj 0 (cmd_get_chains P obj e) e with
      | (e', None) => color_objects rest e'
      | (e', Some ex) => (e', Some ex)
      end
  end.

Definition preset_colorblind_safe (w : World P) : Result unit * World P :=
  let (i, w1) := get_session w in
  let objects := cmd_get_object_list P (inst_engine i) in
  match color_objects objects (inst_engine i) with
  | (e, None) => (Ok tt, set_engine i e w1)
  | (e, Some ex) => (Raise ex, set_engine i e w1)
  end.

(** The [PRESETS] dict. *)
Definition PRESETS : list (str * (World P -> Result unit * World P)) :=
  [(lit "journal_standard", fun w => (Ok tt, preset_journal_standard w));
   (lit "presentation", fun w => (Ok tt, preset_presentation w));
   (lit "colorblind_safe", preset_colorblind_safe)].

(** [str(list(PRESETS))] *)
Definition preset_names_text : str :=
  lit "[" ++ join (lit ", ") (map (fun kv => repr B (fst kv)) PRESETS) ++ lit "]".

(** [apply_preset(name)]; [str] of a [KeyError] is the [repr] of its
    argument. *)
Definition apply_preset (name : str) (w : World P) : Result unit * World P :=
  match dict_get str_eqb name PRESETS with
  | None =>
      (Raise (Exception
                (repr B (lit "Unknown preset '" ++ name ++ lit "'. Available: "
                         ++ preset_names_text))), w)
  | Some preset => preset w
  end.

(** The [cmd.color] calls in [calls], each a colour and a selection, made
    in order up to and including the first that raises. *)
Fixpoint coloured (calls : list (str * str)) (e : Engine P)
  : Engine P * option Exn :=
  match calls with
  | [] => (e, None)
  | (color, selection) :: rest =>
      match cmd_color S color selection e with
      | (e', None) => coloured rest e'
      | (e', Some ex) => (e', Some ex)
      end
  end.

End Presets.

Arguments coloured {P} S calls e.
Arguments preset_journal_standard {P} S w.
Arguments preset_presentation {P} S w.
Arguments color_chains {P} S obj i chains e.
Arguments color_objects {P} S objects e.
Arguments preset_colorblind_safe {P} S w.
Arguments apply_preset {P} B S name w.

(* ------------------------------------------------------------------ *)
(** ** pymol_interface.py: the per-residue RMSD chart *)
(* ------------------------------------------------------------------ *)

(** [sorted(keys)] on integers. *)
Fixpoint insert_sorted (x : Z) (l : list Z) : list Z :=
  match l with
  | [] => [x]
  | y :: l' => if (x <=? y)%Z then x :: l else y :: insert_sorted x l'
  end.

Definition py_sorted (l : list Z) : list Z := fold_right insert_sorted [] l.

(** [rmsd_by_resi[r]], raising [KeyError] on a missing key. *)
Definition dict_index (d : list (Z * float)) (r : Z) : Result float :=
  match dict_get Z.eqb r d with
  | Some v => Ok v
  | None => Raise (Exception (str_of_int r))
  end.

(** [[rmsd_by_resi[r] for r in residues]] *)
Fixpoint lookup_all (d : list (Z * float)) (residues : list Z)
  : Result (list float) :=
  match residues with
  | [] => Ok []
  | r :: rest =>
      match dict_index d r with
      | Raise ex => Raise ex
      | Ok v =>
          match lookup_all d rest with
          | Ok vs => Ok (v :: vs)
          | Raise ex => Raise ex
          end
      end
  end.

(** The figure [fig.savefig] writes: size, bars, labels and resolution. *)
Record BarChart : Type := {
  fig_size : Z * Z;
  bar_x : list Z;
  bar_height : list float;
  bar_color : str;
  bar_width : float;
  chart_xlabel : str;
  chart_ylabel : str;
  chart_title : str;
  save_dpi : Z
}.

(** [plot_per_residue_rmsd(rmsd_by_resi, output_path)]: returns the path
    and the figure saved there.  [matplotlib] tells whether the import
    succeeds; [abspath] is [os.path.abspath]. *)
Definition plot_per_residue_rmsd (matplotlib : bool) (abspath : str -> str)
           (rmsd_by_resi : list (Z * float)) (output_path : str)
  : Result (str * BarChart) :=
  if negb matplotlib then
    Raise (Exception (lit "matplotlib is required for plotting. Install with: pip install matplotlib"))
  else
    let residues := py_sorted (map fst rmsd_by_resi) in
    match lookup_all rmsd_by_resi residues with
    | Raise ex => Raise ex
    | Ok values =>
        Ok (abspath output_path,
            {| fig_size := (12, 4)%Z;
               bar_x := residues; bar_height := values;
               bar_color := lit "steelblue"; bar_width := 1%float;
               chart_xlabel := lit "Residue number";
               chart_ylabel := lit "RMSD (" ++ [195%N; 8230%N] ++ lit ")";
               chart_title := lit "Per-residue RMSD";
               save_dpi := 150%Z |})
    end.

Section PresetProofs.

Variable P : PyMOL2.
Variable B : Builtins.
Variable S : Styling P.

Lemma palette_lookup (i : nat) :
  nth_error wong_palette (i mod length wong_palette) = Some (chain_colour i).
Proof.
  unfold chain_colour. apply nth_error_nth'.
  change (length wong_palette) with 7. apply Nat.mod_upper_bound. discriminate.
Qed.

Lemma color_chains_run (obj : str) (chains : list str) :
  forall (i : nat) (e : Engine P),
    color_chains S obj i chains e
    = coloured S
        (map (fun ic => (chain_colour (fst ic),
                         obj ++ lit " and chain " ++ snd ic))
             (combine (seq i (length chains)) chains)) e.
Proof.
  induction chains as [|chain rest IH]; intros i e; [reflexivity|].
  cbn [color_chains length seq combine map coloured fst snd].
  rewrite palette_lookup.
  destruct (cmd_color S (chain_colour i) (obj ++ lit " and chain " ++ chain) e)
    as [e' [ex|]]; [reflexivity | apply IH].
Qed.

Lemma chain_colour_in (i : nat) : In (chain_colour i) wong_palette.
Proof.
  unfold chain_colour. apply nth_In. change (length wong_palette) with 7.
  apply Nat.mod_upper_bound. discriminate.
Qed.

(** An exception that ends the colouring of an object is one [cmd.color]
    raised, for a colour of the palette. *)
Lemma color_chains_raise (obj : str) (chains : list str) :
  forall (i : nat) (e e1 : Engine P) (ex : Exn),
    color_chains S obj i chains e = (e1, Some ex) ->
    exists color chain e0,
      In color wong_palette /\ In chain chains
      /\ cmd_color S color (obj ++ lit " and chain " ++ chain) e0
         = (e1, Some ex).
Proof.
  induction chains as [|chain rest IH]; intros i e e1 ex H; [discriminate|].
  cbn [color_chains] in H. rewrite palette_lookup in H.
  destruct (cmd_color S (chain_colour i) (obj ++ lit " and chain " ++ chain) e)
    as [e' [ex'|]] eqn:Ec.
  - injection H as <- <-. exists (chain_colour i), chain, e.
    split; [apply chain_colour_in|]. split; [now left | exact Ec].
  - destruct (IH _ _ _ _ H) as [color [chain' [e0 [H1 [H2 H3]]]]].
    exists color, chain', e0. split; [exact H1|]. split; [now right | exact H3].
Qed.

Lemma color_objects_raise (objects : list str) :
  forall (e e1 : Engine P) (ex : Exn),
    color_objects S objects e = (e1, Some ex) ->
    exists color obj chain e0,
      In color wong_palette /\ In obj objects
      /\ cmd_color S color (obj ++ lit " and chain " ++ chain) e0
         = (e1, Some ex).
Proof.
  induction objects as [|obj rest IH]; intros e e1 ex H; [discriminate|].
  cbn [color_objects] in H.
  destruct (color_chains S obj 0 (cmd_get_chains P obj e) e)
    as [e' [ex'|]] eqn:Ec.
  - injection H as <- <-.
    destruct (color_chains_raise _ _ _ _ _ _ Ec) as [color [chain [e0 [H1 [_ H3]]]]].
    exists color, obj, chain, e0. split; [exact H1|]. split; [now left | exact H3].
  - destruct (IH _ _ _ H) as [color [obj' [chain [e0 [H1 [H2 H3]]]]]].
    exists color, obj', chain, e0. split; [exact H1|].
    split; [now right | exact H3].
Qed.

(** When no [cmd.color] call raises, the colouring ends normally. *)
Lemma coloured_ok (calls : list (str * str)) :
  (forall color selection e, snd (cmd_color S color selection e) = None) ->
  forall e : Engine P, snd (coloured S calls e) = None.
Proof.
  intros Hok. induction calls as [|[color selection] rest IH]; intros e;
    [reflexivity|].
  cbn [coloured]. pose proof (Hok color selection e) as H.
  destruct (cmd_color S color selection e) as [e' [ex|]]; cbn [snd] in H;
    [discriminate | apply IH].
Qed.

Lemma color_objects_ok (objects : list str) :
  (forall color selection e, snd (cmd_color S color selection e) = None) ->
  forall e : Engine P, snd (color_objects S objects e) = None.
Proof.
  intros Hok. induction objects as [|obj rest IH]; intros e; [reflexivity|].
  cbn [color_objects].
  pose proof (coloured_ok
                (map (fun ic => (chain_colour (fst ic),
                                 obj ++ lit " and chain " ++ snd ic))
                     (combine (seq 0 (length (cmd_get_chains P obj e)))
                              (cmd_get_chains P obj e))) Hok e) as H.
  rewrite <- color_chains_run in H.
  destruct (color_chains S obj 0 (cmd_get_chains P obj e) e) as [e' [ex|]];
    cbn [snd] in H; [discriminate | apply IH].
Qed.

Lemma preset_colorblind_safe_session (w : World P) :
  _pymol (snd (preset_colorblind_safe S w)) <> None.
Proof.
  unfold preset_colorblind_safe. destruct (get_session w) as [i w1].
  destruct (color_objects S (cmd_get_object_list P (inst_engine i))
              (inst_engine i)) as [e [ex|]]; discriminate.
Qed.

End PresetProofs.

(** X14.  [apply_preset] with a name that is none of the three preset
    names raises [KeyError], naming the preset asked for, and does nothing
    else: no session is started and nothing is changed.  With one of the
    three names a session is held afterwards; the two presets that set the
    background and the settings return normally, and the colour-blind one
    ends as its colouring does, with the exception of [cmd.color] if that
    raised. *)
Theorem apply_preset_unknown_name :
  forall (P : PyMOL2) (B : Builtins) (S : Styling P) (name : str) (w : World P),
    if str_in name [lit "journal_standard"; lit "presentation";
                    lit "colorblind_safe"]
    then _pymol (snd (apply_preset B S name w)) <> None
         /\ (name <> lit "colorblind_safe" ->
             fst (apply_preset B S name w) = Ok tt)
         /\ (name = lit "colorblind_safe" ->
             apply_preset B S name w = preset_colorblind_safe S w)
    else apply_preset B S name w
         = (Raise (Exception
                     (repr B (lit "Unknown preset '" ++ name
                              ++ lit "'. Available: "
                              ++ lit "[" ++ repr B (lit "journal_standard")
                              ++ lit ", " ++ repr B (lit "presentation")
                              ++ lit ", " ++ repr B (lit "colorblind_safe")
                              ++ lit "]"))), w).
Proof.
  intros P B S name w. unfold apply_preset, str_in, PRESETS.
  cbn [existsb dict_get].
  destruct (str_eqb name (lit "journal_standard")) eqn:E1; cbn [orb].
  { cbn [fst snd]. split; [|split; [reflexivity|]].
    - unfold preset_journal_standard. destruct (get_session w). discriminate.
    - intros ->. discriminate E1. }
  destruct (str_eqb name (lit "presentation")) eqn:E2; cbn [orb].
  { cbn [fst snd]. split; [|split; [reflexivity|]].
    - unfold preset_presentation. destruct (get_session w). discriminate.
    - intros ->. discriminate E2. }
  destruct (str_eqb name (lit "colorblind_safe")) eqn:E3; cbn [orb].
  { split; [apply preset_colorblind_safe_session|]. split; [|reflexivity].
    intros Hne. apply str_eqb_eq in E3. contradiction. }
  unfold preset_names_text, PRESETS. cbn [map fst join].
  now rewrite <- !app_assoc.
Qed.


(** The colour-blind preset on an object whose one chain has a blank
    identifier, with a [cmd.color] that rejects the selection that ends
    in [chain ]: the preset raises, and so does [apply_preset]. *)
Example colorblind_blank_chain :
  let P := Demo.pymol Demo.blank_chain_scene in
  let S := {| cmd_bg_color := fun _ (e : Engine P) => e;
              cmd_set := fun _ _ (e : Engine P) => e;
              cmd_color := fun _ selection (e : Engine P) =>
                if str_eqb selection (lit "X and chain ")
                then (e, Some (Exception (lit "Invalid selection.")))
                else (e, None) |} in
  fst (apply_preset Demo.builtins S (lit "colorblind_safe") (initial_world P))
  = Raise (Exception (lit "Invalid selection.")).
Proof. reflexivity. Qed.

Section ChartProofs.

Lemma insert_sorted_perm (x : Z) (l : list Z) :
  Permutation (x :: l) (insert_sorted x l).
Proof.
  induction l as [|y l IH]; cbn [insert_sorted]; [reflexivity|].
  destruct (x <=? y)%Z; [reflexivity|].
  rewrite perm_swap. now constructor.
Qed.

Lemma py_sorted_perm (l : list Z) : Permutation l (py_sorted l).
Proof.
  induction l as [|x l IH]; cbn [py_sorted fold_right]; [constructor|].
  rewrite <- insert_sorted_perm. now constructor.
Qed.

Lemma insert_sorted_sorted (x : Z) (l : list Z) :
  Sorted Z.le l -> Sorted Z.le (insert_sorted x l).
Proof.
  induction 1 as [|y l Hs IH Hhd]; cbn [insert_sorted].
  - repeat constructor.
  - destruct (Z.leb_spec x y).
    + constructor; [now constructor | now constructor].
    + constructor; [exact IH|].
      destruct l as [|z l]; cbn [insert_sorted].
      * constructor. lia.
      * inversion Hhd; subst. destruct (x <=? z)%Z; constructor; lia.
Qed.

Lemma py_sorted_sorted (l : list Z) : Sorted Z.le (py_sorted l).
Proof.
  induction l as [|x l IH]; cbn [py_sorted fold_right]; [constructor|].
  now apply insert_sorted_sorted.
Qed.

Lemma dict_get_key (d : list (Z * float)) (r : Z) :
  In r (map fst d) -> exists v, dict_get Z.eqb r d = Some v.
Proof.
  induction d as [|[k v] d IH]; cbn [map fst In dict_get]; [intros []|].
  intros [-> | H].
  - rewrite Z.eqb_refl. now exists v.
  - destruct (Z.eqb r k); [now exists v | now apply IH].
Qed.

Lemma lookup_all_keys (d : list (Z * float)) (residues : list Z) :
  (forall r, In r residues -> In r (map fst d)) ->
  exists values,
    lookup_all d residues = Ok values
    /\ Forall2 (fun r v => dict_get Z.eqb r d = Some v) residues values.
Proof.
  induction residues as [|r rest IH]; intros Hin.
  - exists []. split; [reflexivity | constructor].
  - destruct (dict_get_key d r (Hin r (or_introl eq_refl))) as [v Hv].
    destruct IH as [vs [Hvs Hall]]; [intros; apply Hin; now right|].
    exists (v :: vs). cbn [lookup_all]. unfold dict_index. rewrite Hv, Hvs.
    split; [reflexivity | now constructor].
Qed.

End ChartProofs.

(** X16.  With matplotlib at hand, [plot_per_residue_rmsd] never fails on
    a dict lookup and returns the absolute path of the figure; the figure
    has one bar per entry of the dict, in ascending order of residue
    number whatever the order of the dict, each bar as high as its
    residue's value.  Without matplotlib it raises [ImportError] for every
    dict. *)
Theorem chart_bars_sorted :
  forall (abspath : str -> str) (d : list (Z * float)) (output_path : str),
    (exists chart,
        plot_per_residue_rmsd true abspath d output_path
        = Ok (abspath output_path, chart)
        /\ Sorted Z.le (bar_x chart)
        /\ Permutation (map fst d) (bar_x chart)
        /\ Forall2 (fun r v => dict_get Z.eqb r d = Some v)
             (bar_x chart) (bar_height chart))
    /\ exists ex, plot_per_residue_rmsd false abspath d output_path = Raise ex.
Proof.
  intros abspath d output_path. split; [|eexists; reflexivity].
  unfold plot_per_residue_rmsd. cbn [negb].
  destruct (lookup_all_keys d (py_sorted (map fst d))) as [values [Hv Hall]].
  { intros r Hr. eapply Permutation_in; [|exact Hr].
    symmetry. apply py_sorted_perm. }
  rewrite Hv. eexists. split; [reflexivity|]. cbn [bar_x bar_height].
  split; [apply py_sorted_sorted|]. split; [apply py_sorted_perm | exact Hall].
Qed.

Section TurnMore.

Variable P : PyMOL2.
Variable B : Builtins.
Variable A : Anthropic.
Variable system_prompt : str.

Lemma await_model_mode (c : Config P A) :
  mode (snd (await_model B system_prompt c)) = mode c.
Proof.
  unfold await_model.
  destruct (messages_create A MODEL MAX_TOKENS system_prompt
              (conversation_history c) (client c)) as [[reply|e|e] cl];
    cbn [snd]; [|reflexivity..].
  match goal with
  | |- context [executing_commands B (extract_commands reply) ?c0] =>
      destruct (executing_commands_frame P B A (extract_commands reply) c0)
        as [_ [H _]]
  end.
  destruct (extract_commands reply); cbn [mode say set_world]; now rewrite H.
Qed.

Lemma mode_iteration (ev : Input) (c : Config P A) :
  mode (snd (iteration B system_prompt ev c)) = mode c
  \/ mode (snd (iteration B system_prompt ev c)) = lit "guided"
  \/ mode (snd (iteration B system_prompt ev c)) = lit "expert".
Proof.
  unfold iteration. destruct ev as [text|]; [|now left].
  destruct (nonempty (strip text)); cbn [negb]; [|now left].
  destruct (str_in _ _); [now left|].
  destruct (str_in (lower B (strip text)) [lit "guided"; lit "expert"]) eqn:Em.
  - right. cbn [snd mode say set_world set_mode].
    unfold str_in in Em. cbn [existsb] in Em. rewrite orb_false_r in Em.
    apply orb_prop in Em as [Em | Em]; apply str_eqb_eq in Em; rewrite Em;
      [now left | now right].
  - left. rewrite await_model_mode.
    now destruct (build_context_fields P A (strip text) (prompted c))
      as [_ [_ [Hm _]]].
Qed.

Lemma mode_loop (events : list Input) :
  forall c : Config P A,
    mode (snd (loop B system_prompt events c)) = mode c
    \/ mode (snd (loop B system_prompt events c)) = lit "guided"
    \/ mode (snd (loop B system_prompt events c)) = lit "expert".
Proof.
  induction events as [|ev rest IH]; intros c; [now left|].
  cbn [loop]. pose proof (mode_iteration ev c) as Hi.
  destruct (iteration B system_prompt ev c) as [[| |e] c']; cbn [snd] in *;
    [|exact Hi..].
  destruct (IH c') as [H | H]; [|now right].
  rewrite H. exact Hi.
Qed.

End TurnMore.

(** X17.  After a line that was forwarded to the model, [pending_outputs]
    holds the descriptors of the commands of the reply just received and
    nothing older: whatever was pending before went into the user turn
    built for the call, and a call that raised, whatever it raised, leaves
    nothing pending. *)
Theorem pending_outputs_hold_last_turn_only :
  forall (P : PyMOL2) (B : Builtins) (A : Anthropic)
         (system_prompt text : str) (c : Config P A),
    forwarded B text = true ->
    pending_outputs (snd (iteration B system_prompt (Line text) c))
    = match fst (messages_create A MODEL MAX_TOKENS system_prompt
                   (conversation_history c ++ [user_turn (strip text) c])
                   (client c)) with
      | Reply reply =>
          flat_map (descriptors_of B)
            (engine_outcomes (extract_commands reply) (current_engine (world c)))
      | APIError _ => []
      | Uncaught _ => []
      end.
Proof.
  intros P B A sp text c Hf.
  rewrite (iteration_forwarded P B A sp text c Hf).
  unfold await_model.
  destruct (build_context_fields P A (strip text) (prompted c))
    as [Hh [Hp [Hm [Hc [Hr Hw]]]]].
  rewrite user_turn_prompted in Hh.
  cbn [prompted set_world conversation_history client requests world] in Hh, Hc, Hr, Hw.
  rewrite Hh, Hc.
  destruct (messages_create A MODEL MAX_TOKENS sp
              (conversation_history c ++ [user_turn (strip text) c]) (client c))
    as [[reply|e|e] cl]; cbn [fst snd]; [| |exact Hp].
  - match goal with
    | |- context [executing_commands B (extract_commands reply) ?c0] =>
        set (c3 := c0)
    end.
    destruct (executing_commands_outcomes P B A (extract_commands reply) c3
                (clean_extract_commands reply)) as [_ [Hpend _]].
    assert (Hp3 : pending_outputs c3 = [])
      by (subst c3; cbn [pending_outputs say set_world set_history]; exact Hp).
    assert (He3 : current_engine (world c3) = current_engine (world c)).
    { subst c3. cbn [world say set_world set_history].
      destruct (print_frame P (newline ++ lit "Agent: " ++ reply ++ newline)
                  (world (build_context (strip text) (prompted c))))
        as [He _].
      rewrite He, Hw, get_session_frame_engine. apply current_engine_write. }
    rewrite Hp3, He3 in Hpend. cbn [app] in Hpend.
    destruct (extract_commands reply); cbn [pending_outputs say set_world];
      exact Hpend.
  - cbn [pending_outputs say set_world set_history]. exact Hp.
Qed.

(** X17 at a concrete input: two replies with one command each; after the
    second line only the second command's descriptor is pending. *)
Lemma pending_outputs_hold_last_turn_only_witness :
  pending_outputs
    (snd (iteration Demo.builtins Demo.system_prompt (Line (lit "again"))
            (snd (iteration Demo.builtins Demo.system_prompt (Line (lit "hi"))
                    (Demo.fresh (Demo.scripted
                                   [Reply (lit "<pymol>zoom</pymol>");
                                    Reply (lit "<pymol>orient</pymol>")]))))))
  = [success_descriptor Demo.builtins (lit "orient") (lit "done orient")].
Proof.
  rewrite (pending_outputs_hold_last_turn_only Demo.bare Demo.builtins
             (Demo.scripted [Reply (lit "<pymol>zoom</pymol>");
                             Reply (lit "<pymol>orient</pymol>")])
             Demo.system_prompt (lit "again") _ eq_refl).
  reflexivity.
Defined.

(** X18.  The mode is at every moment the start mode or one of the two
    mode words in lower case: nothing else the user types, and nothing the
    model replies, changes it. *)
Theorem mode_is_start_or_mode_word :
  forall (P : PyMOL2) (B : Builtins) (A : Anthropic)
         (system_prompt start_mode : str) (events : list Input) (w : World P),
    let c := snd (run_agent B A system_prompt start_mode events w) in
    mode c = start_mode \/ mode c = lit "guided" \/ mode c = lit "expert".
Proof.
  intros P B A sp start_mode events w c. subst c. unfold run_agent.
  pose proof (mode_loop P B A sp events (startup A start_mode w)) as H.
  destruct (loop B sp events (startup A start_mode w)) as [[| |e] c];
    cbn [snd mode set_world] in *; exact H.
Qed.
